(** * Bezier curves by repeated linear interpolation (main.cpp)

    A shallow embedding of [main.cpp]: the [Point] structure, [lerp], the two
    drawing routines [draw_bezier_quadratic] and [draw_bezier_cubic] with
    their [for] loops on an [int] counter, and [main] with its event loop.

    The source computes on C++ [float].  The embedding is written once, over
    an interface [Arith] holding the four operations and the conversions from
    and to [int] that the source uses, and is read at three number types:
    - [Binary32.float]: IEEE-754 single precision, each operation rounded to
      nearest-even on its own, from the Standard Library's [SpecFloat].  This
      is the arithmetic of the program where [float] expressions are
      evaluated in [float] (no excess precision, no fused multiply-add);
    - [Qc] and [R]: exact rationals and reals, the arithmetic the
      specification speaks of ("real-valued coordinates").  Every finite
      [float] is a rational number.

    Properties of the control flow are proved for every [Arith], hence for the
    program's floats.  Properties that rest on laws of arithmetic are proved
    for every [Exact] arithmetic (a field of characteristic zero) and, where
    rounding leaves them true, on [Binary32.float] as well. *)

From Stdlib Require Import ZArith List Lia Bool.
From Stdlib Require Import QArith Qcanon.
From Stdlib Require Import Reals.
From Stdlib Require Import Ring Field.
From Stdlib Require Import Floats.SpecFloat.
From Stdlib Require Strings.String.
Import ListNotations.

Local Open Scope Z_scope.

(** ** The type [int] *)

Definition INT_MIN : Z := -2147483648.
Definition INT_MAX : Z := 2147483647.

(** An integer as an [int], when it is one. *)
Definition int_of_Z (z : Z) : option Z :=
  if (INT_MIN <=? z) && (z <=? INT_MAX) then Some z else None.

(** [++i] on an [int] holding [i]: [i + 1], which is [z] here.  At
    [i = INT_MAX] the increment is undefined in C++; the compiled program
    wraps around in two's complement, to [INT_MIN]. *)
Definition int_wrap (z : Z) : Z := (z - INT_MIN) mod 2 ^ 32 + INT_MIN.

(** ** Arithmetic of the source *)

(** The operations [lerp] and the loops apply to [float] values.
    [of_int] is the conversion of an [int] operand
    ([1 - interp], [(float) i / STEPS], [W * curve_prev.x]).
    [to_int] is the conversion of a [float] argument to an [int] parameter
    (those of [SDL_RenderDrawLine]): the value with its fraction dropped;
    it is undefined, [None], when that is not an [int]. *)
Class Arith (F : Type) : Type := {
  of_int : Z -> F;
  to_int : F -> option Z;
  add : F -> F -> F;
  sub : F -> F -> F;
  mul : F -> F -> F;
  div : F -> F -> F
}.

Declare Scope arith_scope.
Delimit Scope arith_scope with arith.
Infix "+" := add : arith_scope.
Infix "-" := sub : arith_scope.
Infix "*" := mul : arith_scope.
Infix "/" := div : arith_scope.

(** ** Data *)

(** Window size. *)
Definition W : Z := 400.
Definition H : Z := 400.

(** Number of straight lines each curve is drawn with. *)
Definition STEPS : Z := 20.

(** [typedef struct { float x; float y; } Point;] *)
Record Point (F : Type) : Type := { x : F; y : F }.
Arguments Build_Point {F} _ _.
Arguments x {F} _.
Arguments y {F} _.

(** One straight line of a curve, from the end of the previous line
    ([curve_prev]) to the point just computed ([curve_current]). *)
Record Line (F : Type) : Type := { line_from : Point F; line_to : Point F }.
Arguments Build_Line {F} _ _.
Arguments line_from {F} _.
Arguments line_to {F} _.

(** A computation observed after a bounded number of steps: whether it has
    come to its end, and what it has produced so far. *)
Record Progress (A : Type) : Type := { finished : bool; so_far : A }.
Arguments Build_Progress {A} _ _.
Arguments finished {A} _.
Arguments so_far {A} _.

(** Calls made on the SDL renderer.  The parameters of [SDL_RenderDrawLine]
    are [int]s: window coordinates in pixels.  An argument is [None] where
    the caller's conversion to [int] is undefined. *)
Inductive RenderCall : Type :=
| SDL_SetRenderDrawColor (r g b a : Z)
| SDL_RenderClear
| SDL_RenderDrawLine (x1 y1 x2 y2 : option Z)
| SDL_RenderPresent.

(** The renderer is the list of calls it has received, oldest first. *)
Definition Renderer : Type := list RenderCall.

Definition SDL_ALPHA_OPAQUE : Z := 255.

(** ** The routines *)

Section Curves.
Context {F : Type} `{Arith F}.
Local Open Scope arith_scope.

(** [Point lerp(float interp, const Point &p0, const Point &p1)] *)
Definition lerp (interp : F) (p0 p1 : Point F) : Point F :=
  {| x := (of_int 1 - interp) * x p0 + interp * x p1;
     y := (of_int 1 - interp) * y p0 + interp * y p1 |}.

(** [void clear(SDL_Renderer *renderer)] *)
Definition clear (renderer : Renderer) : Renderer :=
  renderer ++ [SDL_SetRenderDrawColor 0 0 0 SDL_ALPHA_OPAQUE; SDL_RenderClear].

(** The [SDL_RenderDrawLine] call of both loop bodies: the four products are
    [float]s, converted to the [int] parameters. *)
Definition render_line (l : Line F) : RenderCall :=
  SDL_RenderDrawLine
    (to_int (of_int W * x (line_from l))) (to_int (of_int H * y (line_from l)))
    (to_int (of_int W * x (line_to l))) (to_int (of_int H * y (line_to l))).

(** *** The loop [for (int i = 1; i <= steps; ++i)]

    Both routines run the same loop; they differ in how [curve_current] is
    computed from [i].  One iteration draws the line from [curve_prev] to
    [curve_current] and goes on from [curve_current].

    [run_for_loop] is the loop with its [int] counter, observed for at most
    [fuel] tests of [i <= steps]: it tells whether the loop has been left,
    and the lines drawn up to then.

    [iterations n] is [n] iterations in a row on a counter that does not
    overflow, and [for_loop] the [steps + 1 - i] of them that the loop
    entered at [i] runs, none when [i] is already beyond [steps]
    ([for_loop_continue], [for_loop_exit]).  For every step count below
    [INT_MAX] the counter stays between 1 and [steps + 1], the loop is left
    and [for_loop] is what it has drawn ([run_for_loop_returns]).  At
    [INT_MAX] the test [i <= steps] cannot fail and the loop is never left
    ([run_for_loop_INT_MAX]); [for_loop] is then the lines of its first
    [INT_MAX] iterations. *)
Section Loop.
Variable steps : Z.
Variable body : Z -> Point F.

Fixpoint run_for_loop (fuel : nat) (i : Z) (curve_prev : Point F)
    : Progress (list (Line F)) :=
  match fuel with
  | O => {| finished := false; so_far := [] |}
  | S fuel' =>
      if (i <=? steps)%Z then
        let curve_current := body i in
        let rest := run_for_loop fuel' (int_wrap (i + 1)) curve_current in
        {| finished := finished rest;
           so_far := {| line_from := curve_prev; line_to := curve_current |}
                       :: so_far rest |}
      else {| finished := true; so_far := [] |}
  end.

Fixpoint iterations (n : nat) (i : Z) (curve_prev : Point F) : list (Line F) :=
  match n with
  | O => []
  | S n' =>
      let curve_current := body i in
      {| line_from := curve_prev; line_to := curve_current |}
        :: iterations n' (i + 1)%Z curve_current
  end.

Definition for_loop (i : Z) (curve_prev : Point F) : list (Line F) :=
  iterations (Z.to_nat (steps + 1 - i)%Z) i curve_prev.
End Loop.

(** *** Quadratic curve *)

(** The point of the quadratic curve at [interp]: the three [lerp] calls of
    the loop body. *)
Definition quadratic_at (p0 p1 p2 : Point F) (interp : F) : Point F :=
  let p0_p1_interp := lerp interp p0 p1 in
  let p1_p2_interp := lerp interp p1 p2 in
  lerp interp p0_p1_interp p1_p2_interp.

(** [curve_current] of iteration [i], with [interp = (float) i / STEPS]. *)
Definition quadratic_current (steps : Z) (p0 p1 p2 : Point F) (i : Z) : Point F :=
  let interp := of_int i / of_int steps in
  quadratic_at p0 p1 p2 interp.

(** The loop of [draw_bezier_quadratic], entered with [i = 1] and
    [curve_prev = p0]: as it runs, and the lines it has drawn when it is
    left. *)
Definition run_quadratic_lines (fuel : nat) (steps : Z) (p0 p1 p2 : Point F)
    : Progress (list (Line F)) :=
  run_for_loop steps (quadratic_current steps p0 p1 p2) fuel 1 p0.

Definition quadratic_lines (steps : Z) (p0 p1 p2 : Point F) : list (Line F) :=
  for_loop steps (quadratic_current steps p0 p1 p2) 1 p0.

(** [void draw_bezier_quadratic(SDL_Renderer *renderer, const Point& p0,
    const Point& p1, const Point& p2)], with the constant [STEPS] of the
    source as the parameter [steps]: the renderer as a call leaves it when
    it returns, which it does for every step count below [INT_MAX]
    ([run_draw_bezier_quadratic_returns]). *)
Definition draw_bezier_quadratic (steps : Z) (renderer : Renderer)
    (p0 p1 p2 : Point F) : Renderer :=
  renderer ++ SDL_SetRenderDrawColor 0 255 0 SDL_ALPHA_OPAQUE
           :: map render_line (quadratic_lines steps p0 p1 p2).

(** The same call as it runs: the colour is set, then the loop draws. *)
Definition run_draw_bezier_quadratic (fuel : nat) (steps : Z)
    (renderer : Renderer) (p0 p1 p2 : Point F) : Progress Renderer :=
  let loop := run_quadratic_lines fuel steps p0 p1 p2 in
  {| finished := finished loop;
     so_far := renderer ++ SDL_SetRenderDrawColor 0 255 0 SDL_ALPHA_OPAQUE
                        :: map render_line (so_far loop) |}.

(** *** Cubic curve *)

Definition cubic_at (p0 p1 p2 p3 : Point F) (interp : F) : Point F :=
  let p0_p1_interp := lerp interp p0 p1 in
  let p1_p2_interp := lerp interp p1 p2 in
  let p2_p3_interp := lerp interp p2 p3 in
  let p0p1_p1p2_interp := lerp interp p0_p1_interp p1_p2_interp in
  let p1p2_p2p3_interp := lerp interp p1_p2_interp p2_p3_interp in
  lerp interp p0p1_p1p2_interp p1p2_p2p3_interp.

Definition cubic_current (steps : Z) (p0 p1 p2 p3 : Point F) (i : Z) : Point F :=
  let interp := of_int i / of_int steps in
  cubic_at p0 p1 p2 p3 interp.

Definition run_cubic_lines (fuel : nat) (steps : Z) (p0 p1 p2 p3 : Point F)
    : Progress (list (Line F)) :=
  run_for_loop steps (cubic_current steps p0 p1 p2 p3) fuel 1 p0.

Definition cubic_lines (steps : Z) (p0 p1 p2 p3 : Point F) : list (Line F) :=
  for_loop steps (cubic_current steps p0 p1 p2 p3) 1 p0.

(** [void draw_bezier_cubic(SDL_Renderer *renderer, const Point& p0,
    const Point& p1, const Point& p2, const Point& p3)], as
    [draw_bezier_quadratic] is read. *)
Definition draw_bezier_cubic (steps : Z) (renderer : Renderer)
    (p0 p1 p2 p3 : Point F) : Renderer :=
  renderer ++ SDL_SetRenderDrawColor 255 0 0 SDL_ALPHA_OPAQUE
           :: map render_line (cubic_lines steps p0 p1 p2 p3).

Definition run_draw_bezier_cubic (fuel : nat) (steps : Z)
    (renderer : Renderer) (p0 p1 p2 p3 : Point F) : Progress Renderer :=
  let loop := run_cubic_lines fuel steps p0 p1 p2 p3 in
  {| finished := finished loop;
     so_far := renderer ++ SDL_SetRenderDrawColor 255 0 0 SDL_ALPHA_OPAQUE
                        :: map render_line (so_far loop) |}.

(** *** The polyline of a curve

    The lines of a loop are drawn end to end ([quadratic_lines_joined]), so
    they are given by the points they pass through: the point the first
    line starts from, then the end of each line.  Where no line is drawn
    there is no point. *)
Definition polyline (lines : list (Line F)) : list (Point F) :=
  match lines with
  | [] => []
  | first :: _ => line_from first :: map line_to lines
  end.

Definition quadratic_polyline (steps : Z) (p0 p1 p2 : Point F) : list (Point F) :=
  polyline (quadratic_lines steps p0 p1 p2).

Definition cubic_polyline (steps : Z) (p0 p1 p2 p3 : Point F) : list (Point F) :=
  polyline (cubic_lines steps p0 p1 p2 p3).
End Curves.

(** ** Outcome of a call

    The source has no [throw] and both routines return [void]: a call that
    comes to its end has succeeded.  [InvalidArgument] is the outcome of a
    call that is rejected.  A call observed while its loop is still running
    has no outcome yet. *)
Inductive Outcome (A : Type) : Type :=
| Succeeds (result : A)
| InvalidArgument.
Arguments Succeeds {A} _.
Arguments InvalidArgument {A}.

Definition outcome_of {A : Type} (run : Progress A) : option (Outcome A) :=
  if finished run then Some (Succeeds (so_far run)) else None.

Definition call_draw_bezier_quadratic {F : Type} `{Arith F} (fuel : nat)
    (steps : Z) (renderer : Renderer) (p0 p1 p2 : Point F)
    : option (Outcome Renderer) :=
  outcome_of (run_draw_bezier_quadratic fuel steps renderer p0 p1 p2).

Definition call_draw_bezier_cubic {F : Type} `{Arith F} (fuel : nat)
    (steps : Z) (renderer : Renderer) (p0 p1 p2 p3 : Point F)
    : option (Outcome Renderer) :=
  outcome_of (run_draw_bezier_cubic fuel steps renderer p0 p1 p2 p3).

(** ** The number types *)

(** *** IEEE-754 single precision: the [float] of the program *)

Module Binary32.
Definition prec : Z := 24.
Definition emax : Z := 128.

Definition float : Type := spec_float.

(** Conversion from [int], rounded to nearest-even (exact up to [2^24]). *)
Definition float_of_int (z : Z) : float := binary_normalize prec emax z 0 false.

(** Conversion to [int]: the fraction of a finite value is dropped; an
    infinity, a NaN and a value beyond [int] have no conversion. *)
Definition float_to_int (a : float) : option Z :=
  match a with
  | S754_zero _ => Some 0
  | S754_finite s m e => int_of_Z (cond_Zopp s (Z.shiftl (Zpos m) e))
  | S754_infinity _ | S754_nan => None
  end.

#[global] Instance arith : Arith float := {|
  of_int := float_of_int;
  to_int := float_to_int;
  add := SFadd prec emax;
  sub := SFsub prec emax;
  mul := SFmul prec emax;
  div := SFdiv prec emax
|}.

(** [1.0f] *)
Definition one : float := S754_finite false 8388608 (-23).

(** A decimal literal such as [0.2] is a [double], the one nearest to the
    fraction it writes ([2/10]); [Point{QUAD_P0_X, QUAD_P0_Y}] converts it
    to [float]. *)
Definition double_literal (n d : Z) : spec_float :=
  SFdiv 53 1024 (binary_normalize 53 1024 n 0 false)
                (binary_normalize 53 1024 d 0 false).

Definition float_of_double (a : spec_float) : float :=
  match a with
  | S754_finite s m e => binary_round prec emax s m e
  | _ => a
  end.

Definition literal (n d : Z) : float := float_of_double (double_literal n d).

(** [==] on [float], and on both coordinates of a [Point]. *)
Definition feqb (a b : float) : bool := SFeqb a b.

Definition point_eqb (p q : Point float) : bool :=
  feqb (x p) (x q) && feqb (y p) (y q).

(** A [float] in normal form that is a number: zero or finite, neither an
    infinity nor a NaN. *)
Definition is_number (a : float) : bool :=
  valid_binary prec emax a
  && match a with
     | S754_zero _ | S754_finite _ _ _ => true
     | S754_infinity _ | S754_nan => false
     end.

Definition is_point (p : Point float) : bool :=
  is_number (x p) && is_number (y p).

(** Equal as numbers: the same value, or two zeros whatever their signs. *)
Definition same_number (a b : float) : Prop :=
  a = b \/ exists s s' : bool, a = S754_zero s /\ b = S754_zero s'.

Definition same_point (p q : Point float) : Prop :=
  same_number (x p) (x q) /\ same_number (y p) (y q).



(** The control points of [main]: the macros [QUAD_P0_X] ... [CUBIC_P3_Y]. *)
Definition QUAD_P0 : Point float := {| x := literal 2 10; y := literal 2 10 |}.
Definition QUAD_P1 : Point float := {| x := literal 5 10; y := literal 9 10 |}.
Definition QUAD_P2 : Point float := {| x := literal 9 10; y := literal 1 10 |}.

Definition CUBIC_P0 : Point float := {| x := literal 1 10; y := literal 9 10 |}.
Definition CUBIC_P1 : Point float := {| x := literal 3 10; y := literal 2 10 |}.
Definition CUBIC_P2 : Point float := {| x := literal 5 10; y := literal 16 10 |}.
Definition CUBIC_P3 : Point float := {| x := literal 8 10; y := literal 4 10 |}.

(** What [main] has the renderer do before it waits for the window to be
    closed. *)
Definition main_frame : Renderer :=
  let renderer := clear [] in
  let renderer := draw_bezier_quadratic STEPS renderer QUAD_P0 QUAD_P1 QUAD_P2 in
  let renderer := draw_bezier_cubic STEPS renderer CUBIC_P0 CUBIC_P1 CUBIC_P2 CUBIC_P3 in
  renderer ++ [SDL_RenderPresent].
End Binary32.

(** *** Exact arithmetic: the numbers of the specification *)

(** An arithmetic without rounding: a field in which the integers embed.
    Negation and inverse, which the source does not use, are [0 - a] and
    [1 / a]. *)
Class Exact (F : Type) `{Arith F} : Prop := {
  exact_field :
    field_theory (of_int 0) (of_int 1) add mul sub (fun a => sub (of_int 0) a)
                 div (fun a => div (of_int 1) a) (@eq F);
  of_int_add : forall m n : Z, of_int (m + n) = add (of_int m) (of_int n);
  of_int_nonzero : forall n : Z, n <> 0 -> of_int n <> of_int 0
}.

#[global] Instance rational_arith : Arith Qc := {|
  of_int := fun z => Q2Qc (inject_Z z);
  to_int := fun q => int_of_Z (Z.quot (Qnum q) (Zpos (Qden q)));
  add := Qcplus;
  sub := Qcminus;
  mul := Qcmult;
  div := Qcdiv
|}.

(** A real number with its fraction dropped. *)
Definition truncate (r : R) : Z :=
  if Rle_dec 0 r then Int_part r else (- Int_part (- r))%Z.

#[global] Instance real_arith : Arith R := {|
  of_int := IZR;
  to_int := fun r => int_of_Z (truncate r);
  add := Rplus;
  sub := Rminus;
  mul := Rmult;
  div := Rdiv
|}.

(** The control points of [main] as the rationals their literals write. *)
Definition rational_point (xn xd yn yd : Z) : Point Qc :=
  {| x := div (of_int xn) (of_int xd); y := div (of_int yn) (of_int yd) |}.

Definition rational_QUAD_P0 : Point Qc := rational_point 2 10 2 10.
Definition rational_QUAD_P1 : Point Qc := rational_point 5 10 9 10.
Definition rational_QUAD_P2 : Point Qc := rational_point 9 10 1 10.
Definition rational_CUBIC_P0 : Point Qc := rational_point 1 10 9 10.
Definition rational_CUBIC_P1 : Point Qc := rational_point 3 10 2 10.
Definition rational_CUBIC_P2 : Point Qc := rational_point 5 10 16 10.
Definition rational_CUBIC_P3 : Point Qc := rational_point 8 10 4 10.

(** ** The curves as the specification words them *)

Section Specification.
Context {F : Type} `{Arith F}.
Local Open Scope arith_scope.

(** Points as vectors: [t·a] and [a + b], on both coordinates. *)
Definition scale (t : F) (a : Point F) : Point F :=
  {| x := t * x a; y := t * y a |}.

Definition plus (a b : Point F) : Point F :=
  {| x := x a + x b; y := y a + y b |}.

Definition minus (a b : Point F) : Point F :=
  {| x := x a - x b; y := y a - y b |}.

(** "returns the Point (1-t)·a + t·b" *)
Definition blend (t : F) (a b : Point F) : Point F :=
  plus (scale (of_int 1 - t) a) (scale t b).

(** The point with integer coordinates [(a, b)]. *)
Definition point_of_ints (a b : Z) : Point F :=
  {| x := of_int a; y := of_int b |}.


(** Step [i] of the quadratic evaluator: [t = i / step_count],
    [a = interpolate(t, p0, p1)], [b = interpolate(t, p1, p2)],
    [point_i = interpolate(t, a, b)]. *)
Definition quadratic_point (step_count : Z) (p0 p1 p2 : Point F) (i : Z) : Point F :=
  let t := of_int i / of_int step_count in
  let a := lerp t p0 p1 in
  let b := lerp t p1 p2 in
  lerp t a b.

(** Step [i] of the cubic evaluator, in its three layers. *)
Definition cubic_point (step_count : Z) (p0 p1 p2 p3 : Point F) (i : Z) : Point F :=
  let t := of_int i / of_int step_count in
  let a := lerp t p0 p1 in
  let b := lerp t p1 p2 in
  let c := lerp t p2 p3 in
  let ab := lerp t a b in
  let bc := lerp t b c in
  lerp t ab bc.

(** The step indices [1, 2, ..., step_count]. *)
Definition steps_upto (step_count : Z) : list Z :=
  map Z.of_nat (seq 1 (Z.to_nat step_count)).

(** Bernstein form of the quadratic curve:
    [(1-t)^2·p0 + 2t(1-t)·p1 + t^2·p2]. *)
Definition bernstein2 (p0 p1 p2 : Point F) (t : F) : Point F :=
  let s := of_int 1 - t in
  plus (scale (s * s) p0)
       (plus (scale (of_int 2 * t * s) p1) (scale (t * t) p2)).

(** Bernstein form of the cubic curve:
    [(1-t)^3·p0 + 3t(1-t)^2·p1 + 3t^2(1-t)·p2 + t^3·p3]. *)
Definition bernstein3 (p0 p1 p2 p3 : Point F) (t : F) : Point F :=
  let s := of_int 1 - t in
  plus (scale (s * s * s) p0)
       (plus (scale (of_int 3 * t * (s * s)) p1)
             (plus (scale (of_int 3 * (t * t) * s) p2) (scale (t * t * t) p3))).
End Specification.

(** ** Further notions on the curves *)

Section Vertices.
Context {F : Type} `{Arith F}.

(** Point [i] of a polyline drawn with [body]: the start point at index 0,
    [curve_current] of iteration [i] from 1 on. *)
Definition vertex (start : Point F) (body : Z -> Point F) (i : Z) : Point F :=
  if i <=? 0 then start else body i.

(** The point mirrored in the diagonal: [x] and [y] exchanged. *)
Definition transpose (p : Point F) : Point F := {| x := y p; y := x p |}.

(** The calls a drawing routine makes: it sets the colour and draws lines. *)
Definition colour_or_line (c : RenderCall) : bool :=
  match c with
  | SDL_SetRenderDrawColor _ _ _ _ | SDL_RenderDrawLine _ _ _ _ => true
  | SDL_RenderClear | SDL_RenderPresent => false
  end.

Definition is_line (c : RenderCall) : bool :=
  match c with
  | SDL_RenderDrawLine _ _ _ _ => true
  | _ => false
  end.

(** Window coordinates where a drawn line starts and where it ends. *)
Definition line_start (c : RenderCall) : option (option Z * option Z) :=
  match c with
  | SDL_RenderDrawLine x1 y1 _ _ => Some (x1, y1)
  | _ => None
  end.

Definition line_end (c : RenderCall) : option (option Z * option Z) :=
  match c with
  | SDL_RenderDrawLine _ _ x2 y2 => Some (x2, y2)
  | _ => None
  end.
End Vertices.

(** ** The shell: [main] and its event loop

    SDL is the environment of [main]: it decides whether the video subsystem
    and the window come up and which events arrive.  A run of [main] is
    described by what it returns, what it writes to [cerr] and the calls it
    makes on SDL, in order. *)

(** What [SDL_PollEvent] hands over, as far as the [switch] of [main]
    distinguishes events: a key press with its key code, a quit request, or
    any other event. *)
Inductive SDL_Event : Type :=
| SDL_KEYDOWN (sym : Z)
| SDL_QUIT
| SDL_other_event.

Inductive SDLCall : Type :=
| SDL_Init
| SDL_CreateWindowAndRenderer (width height flags : Z)
| SDL_Render (call : RenderCall)
| SDL_PollEvent (result : option SDL_Event)
| SDL_Delay (ms : Z)
| SDL_DestroyRenderer
| SDL_DestroyWindow
| SDL_Quit.

(** The answers of SDL during one run: the status [SDL_Init] and
    [SDL_CreateWindowAndRenderer] return, whether the two pointers the latter
    fills in are non-null, and the results of the successive calls of
    [SDL_PollEvent], [None] when no event is pending.  The list is the part
    of the run that is observed; the program goes on polling after it. *)
Record Environment : Type := {
  init_status : Z;
  create_status : Z;
  window_created : bool;
  renderer_created : bool;
  polls : list (option SDL_Event)
}.

(** State of the event loop when it is left, or when the observed polls run
    out: whether the loop has been left, the calls made, the polls not
    consumed. *)
Record LoopState : Type := {
  left_loop : bool;
  loop_calls : list SDLCall;
  unread : list (option SDL_Event)
}.

(** A run of [main]: the value returned, [None] while the program is still in
    its event loop at the end of the observed polls. *)
Record Run : Type := {
  exit_status : option Z;
  cerr : list String.string;
  calls : list SDLCall
}.

Module Messages.
Import String.
Definition init_failed : string := "Error: Could not initialise SDL"%string.
Definition create_failed : string := "Error: Could not create window"%string.
End Messages.

Section Shell.
(** The key code of the escape key, a constant of the SDL headers. *)
Variable SDLK_ESCAPE : Z.

(** The [switch (event.type)] of [main], on the flag [quit]. *)
Definition handle_event (quit : bool) (event : SDL_Event) : bool :=
  match event with
  | SDL_KEYDOWN sym => if sym =? SDLK_ESCAPE then true else quit
  | SDL_QUIT => true
  | SDL_other_event => quit
  end.

Definition add_calls (cs : list SDLCall) (s : LoopState) : LoopState :=
  {| left_loop := left_loop s;
     loop_calls := cs ++ loop_calls s;
     unread := unread s |}.

(** [while (!quit) { while (SDL_PollEvent(&event)) { switch ... } SDL_Delay(5); }]
    from inside the inner loop, with the current value of [quit].  An event
    is handled and the inner loop goes on; an empty poll ends the inner
    loop, [SDL_Delay(5)] follows, and the outer loop is left if [quit] is
    set, entered again otherwise. *)
Fixpoint event_loop (quit : bool) (results : list (option SDL_Event)) : LoopState :=
  match results with
  | [] => {| left_loop := false; loop_calls := []; unread := [] |}
  | Some event :: rest =>
      add_calls [SDL_PollEvent (Some event)]
                (event_loop (handle_event quit event) rest)
  | None :: rest =>
      if quit
      then {| left_loop := true;
              loop_calls := [SDL_PollEvent None; SDL_Delay 5];
              unread := rest |}
      else add_calls [SDL_PollEvent None; SDL_Delay 5] (event_loop quit rest)
  end.

(** [int main(int argc, char** argv)] *)
Definition main (env : Environment) : Run :=
  if negb (init_status env =? 0)
  then {| exit_status := Some 1;
          cerr := [Messages.init_failed];
          calls := [SDL_Init] |}
  else if negb (create_status env =? 0)
  then {| exit_status := Some 2;
          cerr := [Messages.create_failed];
          calls := [SDL_Init; SDL_CreateWindowAndRenderer W H 0] |}
  else
    let drawn := map SDL_Render Binary32.main_frame in
    let loop := event_loop false (polls env) in
    let started := [SDL_Init; SDL_CreateWindowAndRenderer W H 0] ++ drawn
                   ++ loop_calls loop in
    if left_loop loop
    then {| exit_status := Some 0;
            cerr := [];
            calls := started
                     ++ (if renderer_created env then [SDL_DestroyRenderer] else [])
                     ++ (if window_created env then [SDL_DestroyWindow] else [])
                     ++ [SDL_Quit] |}
    else {| exit_status := None; cerr := []; calls := started |}.

(** An event that sets [quit]: a quit request or the escape key. *)
Definition quits (event : SDL_Event) : bool := handle_event false event.

(** The calls of the event loop for the polls it has consumed: each poll, and
    [SDL_Delay(5)] after every empty one. *)
Definition poll_calls (consumed : list (option SDL_Event)) : list SDLCall :=
  flat_map (fun result => match result with
                          | Some _ => [SDL_PollEvent result]
                          | None => [SDL_PollEvent result; SDL_Delay 5]
                          end) consumed.
End Shell.

(** A run of the event loop: a key that is not escape, an empty queue, then
    escape with another event pending behind it, an empty queue, and a quit
    request that is never polled. *)
Definition sample_polls : list (option SDL_Event) :=
  [Some (SDL_KEYDOWN 97); None; Some (SDL_KEYDOWN 27); Some SDL_other_event;
   None; Some SDL_QUIT].

(** SDL comes up, the window is created, and the events of [sample_polls]
    arrive. *)
Definition sample_environment : Environment :=
  {| init_status := 0;
     create_status := 0;
     window_created := true;
     renderer_created := true;
     polls := sample_polls |}.

(** ** The [int] counter *)

Lemma int_wrap_int (z : Z) : INT_MIN <= z <= INT_MAX -> int_wrap z = z.
Proof.
  unfold int_wrap, INT_MIN, INT_MAX. intros Hz.
  rewrite Z.mod_small by lia. lia.
Qed.

Lemma int_wrap_range (z : Z) : INT_MIN <= int_wrap z <= INT_MAX.
Proof.
  unfold int_wrap, INT_MIN, INT_MAX.
  pose proof (Z.mod_pos_bound (z - -2147483648) (2 ^ 32) eq_refl). lia.
Qed.

(** The increment that leaves [int]. *)
Example int_wrap_overflow : int_wrap (INT_MAX + 1) = INT_MIN.
Proof. reflexivity. Qed.

(** ** The loop *)

Section LoopFacts.
Context {F : Type} `{Arith F}.
Variable steps : Z.
Variable body : Z -> Point F.

(** The loop test [i <= steps] holds: one iteration, then the loop again
    from [i + 1]. *)
Lemma for_loop_continue (i : Z) (curve_prev : Point F) :
  i <= steps ->
  for_loop steps body i curve_prev
  = {| line_from := curve_prev; line_to := body i |}
      :: for_loop steps body (i + 1) (body i).
Proof.
  intros Hi. unfold for_loop.
  replace (Z.to_nat (steps + 1 - i)) with (S (Z.to_nat (steps + 1 - (i + 1)))) by lia.
  reflexivity.
Qed.

(** The loop test fails: the loop is left and nothing more is drawn. *)
Lemma for_loop_exit (i : Z) (curve_prev : Point F) :
  steps < i -> for_loop steps body i curve_prev = [].
Proof.
  intros Hi. unfold for_loop.
  replace (Z.to_nat (steps + 1 - i)) with O by lia.
  reflexivity.
Qed.

(** Below [INT_MAX] the loop with its [int] counter is left, after
    [steps + 1 - i] iterations and one more test, and has drawn the lines of
    [for_loop]. *)
Lemma run_for_loop_returns (fuel : nat) (i : Z) (curve_prev : Point F) :
  steps < INT_MAX -> 1 <= i ->
  (Z.to_nat (steps + 1 - i) < fuel)%nat ->
  run_for_loop steps body fuel i curve_prev
  = {| finished := true; so_far := for_loop steps body i curve_prev |}.
Proof.
  intros Hs. revert i curve_prev.
  induction fuel as [|fuel IH]; intros i curve_prev Hi Hfuel; [lia|].
  cbn [run_for_loop].
  destruct (Z.leb_spec i steps) as [Hle|Hgt].
  - rewrite int_wrap_int by (unfold INT_MIN, INT_MAX in *; lia).
    rewrite IH by lia. cbn [finished so_far].
    now rewrite (for_loop_continue i curve_prev Hle).
  - now rewrite for_loop_exit.
Qed.

(** At [INT_MAX] the test [i <= steps] holds for every [int]: each test is
    followed by an iteration and the loop is not left. *)
Lemma run_for_loop_INT_MAX (fuel : nat) (i : Z) (curve_prev : Point F) :
  steps = INT_MAX -> INT_MIN <= i <= INT_MAX ->
  finished (run_for_loop steps body fuel i curve_prev) = false
  /\ length (so_far (run_for_loop steps body fuel i curve_prev)) = fuel.
Proof.
  intros Hs. revert i curve_prev.
  induction fuel as [|fuel IH]; intros i curve_prev Hi; [now split|].
  cbn [run_for_loop].
  destruct (Z.leb_spec i steps) as [_|Hgt]; [|lia].
  cbn [finished so_far length].
  destruct (IH (int_wrap (i + 1)) (body i) (int_wrap_range _)) as [IH1 IH2].
  now rewrite IH1, IH2.
Qed.

Lemma iterations_length (n : nat) (i : Z) (curve_prev : Point F) :
  length (iterations body n i curve_prev) = n.
Proof.
  revert i curve_prev.
  induction n as [|n IH]; intros i curve_prev; simpl; [reflexivity|].
  now rewrite IH.
Qed.

(** The end points of the lines are the values of [curve_current] at the
    successive indices. *)
Lemma iterations_line_to (n k : nat) (curve_prev : Point F) :
  map line_to (iterations body n (Z.of_nat k) curve_prev)
  = map body (map Z.of_nat (seq k n)).
Proof.
  revert k curve_prev.
  induction n as [|n IH]; intros k curve_prev; simpl; [reflexivity|].
  f_equal.
  replace (Z.of_nat k + 1) with (Z.of_nat (S k)) by lia.
  apply IH.
Qed.

(** The polyline of one iteration or more starts at the initial
    [curve_prev]. *)
Lemma polyline_iterations (n : nat) (i : Z) (curve_prev : Point F) :
  polyline (iterations body (S n) i curve_prev)
  = curve_prev :: map line_to (iterations body (S n) i curve_prev).
Proof. reflexivity. Qed.

Lemma iterations_chain (n : nat) (i : Z) (curve_prev : Point F) :
  map line_from (iterations body n i curve_prev)
  = removelast (curve_prev :: map line_to (iterations body n i curve_prev)).
Proof.
  revert i curve_prev.
  induction n as [|n IH]; intros i curve_prev; [reflexivity|].
  cbn [iterations map line_from line_to].
  rewrite (IH (i + 1) (body i)). reflexivity.
Qed.

(** Each line starts where the previous one ended, the first at the initial
    [curve_prev]: the starting points are the polyline without its last
    point. *)
Lemma iterations_line_from (n : nat) (i : Z) (curve_prev : Point F) :
  map line_from (iterations body n i curve_prev)
  = removelast (polyline (iterations body n i curve_prev)).
Proof.
  destruct n as [|n]; [reflexivity|].
  rewrite polyline_iterations. apply iterations_chain.
Qed.

Lemma polyline_for_loop (p0 : Point F) :
  0 < steps ->
  polyline (for_loop steps body 1 p0) = p0 :: map body (steps_upto steps).
Proof.
  intros Hs. unfold for_loop, steps_upto.
  replace (steps + 1 - 1) with steps by lia.
  destruct (Z.to_nat steps) as [|n] eqn:E; [lia|].
  rewrite polyline_iterations. f_equal.
  apply (iterations_line_to (S n) 1).
Qed.

(** Without an iteration there is no line and no point. *)
Lemma polyline_no_iteration (p0 : Point F) :
  steps <= 0 -> polyline (for_loop steps body 1 p0) = [].
Proof. intros Hs. now rewrite for_loop_exit by lia. Qed.

Lemma steps_upto_length : length (steps_upto steps) = Z.to_nat steps.
Proof. unfold steps_upto. now rewrite length_map, length_seq. Qed.

Lemma steps_upto_In (i : Z) : In i (steps_upto steps) <-> 1 <= i <= steps.
Proof.
  unfold steps_upto. rewrite in_map_iff. split.
  - intros [k [<- Hk]]. apply in_seq in Hk. lia.
  - intros Hi. exists (Z.to_nat i). split; [lia|]. apply in_seq. lia.
Qed.
End LoopFacts.

(** The index list of the specification, on a small case. *)
Example steps_upto_3 : steps_upto 3 = [1; 2; 3].
Proof. reflexivity. Qed.

Lemma steps_upto_nth (steps i : Z) :
  1 <= i <= steps -> nth_error (steps_upto steps) (Z.to_nat i - 1) = Some i.
Proof.
  intros Hi. unfold steps_upto.
  rewrite nth_error_map, nth_error_seq.
  destruct (Nat.ltb_spec (Z.to_nat i - 1) (Z.to_nat steps)) as [_|Hge]; [|lia].
  cbn. f_equal. lia.
Qed.

(** ** Control flow of the two routines, for every arithmetic *)

Section Routines.
Context {F : Type} `{Arith F}.

(** The loop body of the source computes the step of the specification. *)
Lemma quadratic_current_point (steps : Z) (p0 p1 p2 : Point F) (i : Z) :
  quadratic_current steps p0 p1 p2 i = quadratic_point steps p0 p1 p2 i.
Proof. reflexivity. Qed.

Lemma cubic_current_point (steps : Z) (p0 p1 p2 p3 : Point F) (i : Z) :
  cubic_current steps p0 p1 p2 p3 i = cubic_point steps p0 p1 p2 p3 i.
Proof. reflexivity. Qed.

(** Below [INT_MAX] either loop is left after [steps] iterations, none for a
    step count of zero or less, and one more test. *)
Lemma run_quadratic_lines_returns (fuel : nat) (steps : Z) (p0 p1 p2 : Point F) :
  steps < INT_MAX -> (Z.to_nat steps < fuel)%nat ->
  run_quadratic_lines fuel steps p0 p1 p2
  = {| finished := true; so_far := quadratic_lines steps p0 p1 p2 |}.
Proof.
  intros Hs Hfuel. apply run_for_loop_returns; [exact Hs | lia | lia].
Qed.

Lemma run_cubic_lines_returns (fuel : nat) (steps : Z) (p0 p1 p2 p3 : Point F) :
  steps < INT_MAX -> (Z.to_nat steps < fuel)%nat ->
  run_cubic_lines fuel steps p0 p1 p2 p3
  = {| finished := true; so_far := cubic_lines steps p0 p1 p2 p3 |}.
Proof.
  intros Hs Hfuel. apply run_for_loop_returns; [exact Hs | lia | lia].
Qed.

Lemma run_draw_bezier_quadratic_returns
    (fuel : nat) (steps : Z) (renderer : Renderer) (p0 p1 p2 : Point F) :
  steps < INT_MAX -> (Z.to_nat steps < fuel)%nat ->
  run_draw_bezier_quadratic fuel steps renderer p0 p1 p2
  = {| finished := true;
       so_far := draw_bezier_quadratic steps renderer p0 p1 p2 |}.
Proof.
  intros Hs Hfuel. unfold run_draw_bezier_quadratic.
  now rewrite run_quadratic_lines_returns.
Qed.

Lemma run_draw_bezier_cubic_returns
    (fuel : nat) (steps : Z) (renderer : Renderer) (p0 p1 p2 p3 : Point F) :
  steps < INT_MAX -> (Z.to_nat steps < fuel)%nat ->
  run_draw_bezier_cubic fuel steps renderer p0 p1 p2 p3
  = {| finished := true;
       so_far := draw_bezier_cubic steps renderer p0 p1 p2 p3 |}.
Proof.
  intros Hs Hfuel. unfold run_draw_bezier_cubic.
  now rewrite run_cubic_lines_returns.
Qed.

(** At [INT_MAX] neither loop is left: after [fuel] tests it has drawn
    [fuel] lines and goes on. *)
Lemma run_quadratic_lines_INT_MAX (fuel : nat) (p0 p1 p2 : Point F) :
  finished (run_quadratic_lines fuel INT_MAX p0 p1 p2) = false
  /\ length (so_far (run_quadratic_lines fuel INT_MAX p0 p1 p2)) = fuel.
Proof.
  apply run_for_loop_INT_MAX; [reflexivity | unfold INT_MIN, INT_MAX; lia].
Qed.

Lemma run_cubic_lines_INT_MAX (fuel : nat) (p0 p1 p2 p3 : Point F) :
  finished (run_cubic_lines fuel INT_MAX p0 p1 p2 p3) = false
  /\ length (so_far (run_cubic_lines fuel INT_MAX p0 p1 p2 p3)) = fuel.
Proof.
  apply run_for_loop_INT_MAX; [reflexivity | unfold INT_MIN, INT_MAX; lia].
Qed.

Lemma quadratic_lines_length (steps : Z) (p0 p1 p2 : Point F) :
  length (quadratic_lines steps p0 p1 p2) = Z.to_nat steps.
Proof.
  unfold quadratic_lines, for_loop. rewrite iterations_length. f_equal. lia.
Qed.

Lemma cubic_lines_length (steps : Z) (p0 p1 p2 p3 : Point F) :
  length (cubic_lines steps p0 p1 p2 p3) = Z.to_nat steps.
Proof.
  unfold cubic_lines, for_loop. rewrite iterations_length. f_equal. lia.
Qed.

Lemma quadratic_polyline_map (steps : Z) (p0 p1 p2 : Point F) :
  0 < steps ->
  quadratic_polyline steps p0 p1 p2
  = p0 :: map (quadratic_point steps p0 p1 p2) (steps_upto steps).
Proof. apply polyline_for_loop. Qed.

Lemma cubic_polyline_map (steps : Z) (p0 p1 p2 p3 : Point F) :
  0 < steps ->
  cubic_polyline steps p0 p1 p2 p3
  = p0 :: map (cubic_point steps p0 p1 p2 p3) (steps_upto steps).
Proof. apply polyline_for_loop. Qed.

(** The lines drawn join the points of the polyline, each to the next. *)
Lemma quadratic_lines_joined (steps : Z) (p0 p1 p2 : Point F) :
  map line_from (quadratic_lines steps p0 p1 p2)
  = removelast (quadratic_polyline steps p0 p1 p2)
  /\ map line_to (quadratic_lines steps p0 p1 p2)
     = tl (quadratic_polyline steps p0 p1 p2).
Proof.
  split; [apply iterations_line_from|].
  unfold quadratic_polyline, polyline.
  now destruct (quadratic_lines steps p0 p1 p2).
Qed.

Lemma cubic_lines_joined (steps : Z) (p0 p1 p2 p3 : Point F) :
  map line_from (cubic_lines steps p0 p1 p2 p3)
  = removelast (cubic_polyline steps p0 p1 p2 p3)
  /\ map line_to (cubic_lines steps p0 p1 p2 p3)
     = tl (cubic_polyline steps p0 p1 p2 p3).
Proof.
  split; [apply iterations_line_from|].
  unfold cubic_polyline, polyline.
  now destruct (cubic_lines steps p0 p1 p2 p3).
Qed.

Lemma polyline_nth_step (start : Point F) (body : Z -> Point F) (steps i : Z) :
  1 <= i <= steps ->
  nth_error (start :: map body (steps_upto steps)) (Z.to_nat i) = Some (body i).
Proof.
  intros Hi.
  replace (Z.to_nat i) with (S (Z.to_nat i - 1)) by lia.
  cbn [nth_error]. rewrite nth_error_map, steps_upto_nth by exact Hi.
  reflexivity.
Qed.

Lemma last_map_steps (start : Point F) (body : Z -> Point F) (steps : Z) :
  0 < steps ->
  last (start :: map body (steps_upto steps)) start = body steps.
Proof.
  intros Hs. unfold steps_upto.
  replace (Z.to_nat steps) with (S (Z.to_nat steps - 1)) by lia.
  rewrite seq_S, !map_app. cbn [map].
  change (start :: ?l ++ [?a]) with ((start :: l) ++ [a]).
  rewrite last_last. f_equal. lia.
Qed.

(** C1.  For every positive step count below [INT_MAX] the loop of the
    quadratic routine comes to its end, and the lines it has drawn pass
    through [p0] and then, for [i] from 1 to the step count in this order,
    through the point obtained with [t = i / step_count] as
    [interpolate(t, a, b)] where [a = interpolate(t, p0, p1)] and
    [b = interpolate(t, p1, p2)]. *)
Theorem quadratic_polyline_correct (steps : Z) (p0 p1 p2 : Point F) :
  0 < steps < INT_MAX ->
  (forall fuel : nat, (Z.to_nat steps < fuel)%nat ->
     run_quadratic_lines fuel steps p0 p1 p2
     = {| finished := true; so_far := quadratic_lines steps p0 p1 p2 |})
  /\ quadratic_polyline steps p0 p1 p2
     = p0 :: map (quadratic_point steps p0 p1 p2) (steps_upto steps)
  /\ nth_error (quadratic_polyline steps p0 p1 p2) 0 = Some p0
  /\ forall i : Z, 1 <= i <= steps ->
       nth_error (quadratic_polyline steps p0 p1 p2) (Z.to_nat i)
       = Some (quadratic_point steps p0 p1 p2 i).
Proof.
  intros [Hs Hmax].
  split; [intros fuel Hfuel; now apply run_quadratic_lines_returns|].
  rewrite quadratic_polyline_map by exact Hs.
  split; [reflexivity|]. split; [reflexivity|].
  intros i Hi. now apply polyline_nth_step.
Qed.

(** C2.  For every positive step count below [INT_MAX] the loop of the
    cubic routine comes to its end, and the lines it has drawn pass through
    [p0] and then, for [i] from 1 to the step count in this order, through
    the point obtained with [t = i / step_count] in three layers:
    [a], [b], [c] from the control points, [ab] and [bc] from those, and
    [interpolate(t, ab, bc)]. *)
Theorem cubic_polyline_correct (steps : Z) (p0 p1 p2 p3 : Point F) :
  0 < steps < INT_MAX ->
  (forall fuel : nat, (Z.to_nat steps < fuel)%nat ->
     run_cubic_lines fuel steps p0 p1 p2 p3
     = {| finished := true; so_far := cubic_lines steps p0 p1 p2 p3 |})
  /\ cubic_polyline steps p0 p1 p2 p3
     = p0 :: map (cubic_point steps p0 p1 p2 p3) (steps_upto steps)
  /\ nth_error (cubic_polyline steps p0 p1 p2 p3) 0 = Some p0
  /\ forall i : Z, 1 <= i <= steps ->
       nth_error (cubic_polyline steps p0 p1 p2 p3) (Z.to_nat i)
       = Some (cubic_point steps p0 p1 p2 p3 i).
Proof.
  intros [Hs Hmax].
  split; [intros fuel Hfuel; now apply run_cubic_lines_returns|].
  rewrite cubic_polyline_map by exact Hs.
  split; [reflexivity|]. split; [reflexivity|].
  intros i Hi. now apply polyline_nth_step.
Qed.

(** C4.  For every positive step count below [INT_MAX] either loop, once
    left, has drawn [step_count] lines; their polyline has [step_count + 1]
    points and its first point, where the first line starts, is [p0]
    itself.  With one step the polyline has two points. *)
Theorem polyline_length_and_start (steps : Z) (q0 q1 q2 p0 p1 p2 p3 : Point F) :
  0 < steps < INT_MAX ->
  (forall fuel : nat, (Z.to_nat steps < fuel)%nat ->
     let quadratic := run_quadratic_lines fuel steps q0 q1 q2 in
     let cubic := run_cubic_lines fuel steps p0 p1 p2 p3 in
     (finished quadratic = true
      /\ Z.of_nat (length (polyline (so_far quadratic))) = steps + 1
      /\ hd_error (map line_from (so_far quadratic)) = Some q0)
     /\ (finished cubic = true
         /\ Z.of_nat (length (polyline (so_far cubic))) = steps + 1
         /\ hd_error (map line_from (so_far cubic)) = Some p0))
  /\ (Z.of_nat (length (quadratic_polyline steps q0 q1 q2)) = steps + 1
      /\ hd_error (quadratic_polyline steps q0 q1 q2) = Some q0)
  /\ (Z.of_nat (length (cubic_polyline steps p0 p1 p2 p3)) = steps + 1
      /\ hd_error (cubic_polyline steps p0 p1 p2 p3) = Some p0)
  /\ length (quadratic_polyline 1 q0 q1 q2) = 2%nat
  /\ length (cubic_polyline 1 p0 p1 p2 p3) = 2%nat.
Proof.
  intros [Hs Hmax].
  assert (Hq : Z.of_nat (length (quadratic_polyline steps q0 q1 q2)) = steps + 1
               /\ hd_error (quadratic_polyline steps q0 q1 q2) = Some q0).
  { rewrite quadratic_polyline_map by exact Hs. cbn [length hd_error].
    rewrite length_map, steps_upto_length. split; [lia | reflexivity]. }
  assert (Hc : Z.of_nat (length (cubic_polyline steps p0 p1 p2 p3)) = steps + 1
               /\ hd_error (cubic_polyline steps p0 p1 p2 p3) = Some p0).
  { rewrite cubic_polyline_map by exact Hs. cbn [length hd_error].
    rewrite length_map, steps_upto_length. split; [lia | reflexivity]. }
  assert (Hfrom : forall lines : list (Line F),
            hd_error (map line_from lines) = hd_error (polyline lines))
    by (intros [|first rest]; reflexivity).
  split; [|split; [exact Hq | split; [exact Hc | split; reflexivity]]].
  intros fuel Hfuel. cbv zeta.
  rewrite run_quadratic_lines_returns, run_cubic_lines_returns by assumption.
  cbn [finished so_far]. rewrite !Hfrom.
  split; (split; [reflexivity|]); [exact Hq | exact Hc].
Qed.
End Routines.

(** ** The exact number types *)

#[global] Instance rational_exact : Exact Qc.
Proof.
  constructor.
  - constructor; [constructor|..]; cbn; intros.
    all: change (Q2Qc (inject_Z 0)) with 0%Qc; change (Q2Qc (inject_Z 1)) with 1%Qc.
    all: try ring.
    + discriminate.
    + unfold Qcdiv. ring.
    + field. assumption.
  - intros m n. cbn [of_int add rational_arith]. apply Qc_is_canon.
    unfold Qcplus, Q2Qc, this. rewrite !Qred_correct, inject_Z_plus. reflexivity.
  - intros n Hn. cbn [of_int rational_arith]. intros E. apply Hn.
    apply (f_equal this) in E. unfold Q2Qc, this in E.
    assert (E' : (inject_Z n == inject_Z 0)%Q)
      by (rewrite <- (Qred_correct (inject_Z n)), E; apply Qred_correct).
    unfold Qeq in E'. cbn in E'. lia.
Qed.

#[global] Instance real_exact : Exact R.
Proof.
  constructor.
  - constructor; [constructor|..]; cbn; intros; try ring.
    + apply R1_neq_R0.
    + unfold Rdiv. ring.
    + unfold Rdiv. field. assumption.
  - intros m n. cbn. apply plus_IZR.
  - intros n Hn. cbn. intros E. apply Hn. now apply eq_IZR_R0.
Qed.

(** ** Properties in exact arithmetic *)

Section ExactFacts.
Context {F : Type} `{Exact F}.
Local Open Scope arith_scope.

Add Field exact_arith : exact_field.

Lemma of_int_2 : of_int 2 = of_int 1 + of_int 1.
Proof. exact (of_int_add 1 1). Qed.

Lemma of_int_3 : of_int 3 = of_int 1 + of_int 1 + of_int 1.
Proof. rewrite <- of_int_2. exact (of_int_add 2 1). Qed.

Lemma of_int_4 : of_int 4 = of_int 1 + of_int 1 + of_int 1 + of_int 1.
Proof. rewrite <- of_int_3. exact (of_int_add 3 1). Qed.

Lemma two_nonzero : of_int 1 + of_int 1 <> of_int 0.
Proof. rewrite <- of_int_2. apply of_int_nonzero. lia. Qed.

Lemma mul_nonzero (a b : F) : a <> of_int 0 -> b <> of_int 0 -> a * b <> of_int 0.
Proof.
  intros Ha Hb E. apply Hb.
  assert (E' : b = of_int 1 / a * (a * b)) by (field; exact Ha).
  rewrite E' , E. ring.
Qed.

(** [t] of the last iteration: [(float) STEPS / STEPS] is one. *)
Lemma div_same (n : Z) : n <> 0%Z -> of_int n / of_int n = of_int 1.
Proof. intros Hn. field. now apply of_int_nonzero. Qed.


Lemma lerp_1 (a b : Point F) : lerp (of_int 1) a b = b.
Proof. destruct a, b. unfold lerp. cbn. f_equal; ring. Qed.


(** The interpolated point lies on the line through [a] and [b], at [t] times
    the way from [a] to [b]; beyond [b] when [t] exceeds 1. *)
Lemma lerp_line (t : F) (a b : Point F) :
  lerp t a b = plus a (scale t (minus b a)).
Proof.
  destruct a, b. unfold lerp, plus, scale, minus. cbn [x y]. f_equal; ring.
Qed.

Lemma lerp_beyond (a b : Point F) : lerp (of_int 2) a b = plus b (minus b a).
Proof.
  destruct a, b. unfold lerp, plus, minus. cbn [x y].
  rewrite of_int_2. f_equal; ring.
Qed.

(** Interpolating between a point and itself stays at the point. *)
Lemma lerp_same (t : F) (p : Point F) : lerp t p p = p.
Proof. destruct p. unfold lerp. cbn. f_equal; ring. Qed.

Lemma quadratic_at_1 (p0 p1 p2 : Point F) : quadratic_at p0 p1 p2 (of_int 1) = p2.
Proof. unfold quadratic_at. now rewrite !lerp_1. Qed.

Lemma cubic_at_1 (p0 p1 p2 p3 : Point F) : cubic_at p0 p1 p2 p3 (of_int 1) = p3.
Proof. unfold cubic_at. now rewrite !lerp_1. Qed.

Lemma quadratic_at_same (p : Point F) (t : F) : quadratic_at p p p t = p.
Proof. unfold quadratic_at. now rewrite !lerp_same. Qed.

Lemma cubic_at_same (p : Point F) (t : F) : cubic_at p p p p t = p.
Proof. unfold cubic_at. now rewrite !lerp_same. Qed.

(** The last iteration has [interp = 1] and lands on the last control
    point. *)
Lemma exact_quadratic_ends (steps : Z) (p0 p1 p2 : Point F) :
  (0 < steps)%Z -> last (quadratic_polyline steps p0 p1 p2) p0 = p2.
Proof.
  intros Hs. rewrite quadratic_polyline_map, last_map_steps by exact Hs.
  unfold quadratic_point. rewrite div_same by lia. apply quadratic_at_1.
Qed.

Lemma exact_cubic_ends (steps : Z) (p0 p1 p2 p3 : Point F) :
  (0 < steps)%Z -> last (cubic_polyline steps p0 p1 p2 p3) p0 = p3.
Proof.
  intros Hs. rewrite cubic_polyline_map, last_map_steps by exact Hs.
  unfold cubic_point. rewrite div_same by lia. apply cubic_at_1.
Qed.

Lemma exact_cubic_one_step :
  cubic_polyline 1 (point_of_ints 0 0) (point_of_ints 0 1)
                   (point_of_ints 1 1) (point_of_ints 1 0)
  = [point_of_ints 0 0; point_of_ints 1 0].
Proof.
  rewrite cubic_polyline_map by lia. change (steps_upto 1) with [1%Z]. cbn [map].
  unfold cubic_point. rewrite (div_same 1) by lia.
  f_equal. f_equal. apply cubic_at_1.
Qed.

Lemma exact_quadratic_two_steps :
  quadratic_polyline 2 (point_of_ints 0 0) (point_of_ints 1 0) (point_of_ints 1 1)
  = [point_of_ints 0 0;
     {| x := of_int 3 / of_int 4; y := of_int 1 / of_int 4 |};
     point_of_ints 1 1].
Proof.
  rewrite quadratic_polyline_map by lia.
  change (steps_upto 2) with [1%Z; 2%Z]. cbn [map].
  unfold quadratic_point. rewrite (div_same 2) by lia.
  rewrite !lerp_1. f_equal. f_equal.
  unfold lerp, point_of_ints. cbn [x y].
  rewrite of_int_2, of_int_3, of_int_4.
  f_equal; field; repeat split;
    first [apply two_nonzero | apply mul_nonzero; apply two_nonzero].
Qed.

Lemma exact_degenerate_quadratic (steps : Z) (p : Point F) :
  Forall (fun q => q = p) (quadratic_polyline steps p p p).
Proof.
  destruct (Z.ltb_spec 0 steps) as [Hs|Hs];
    [|unfold quadratic_polyline, quadratic_lines;
      rewrite polyline_no_iteration by exact Hs; constructor].
  rewrite quadratic_polyline_map by exact Hs. constructor; [reflexivity|].
  apply Forall_forall. intros q Hq.
  apply in_map_iff in Hq. destruct Hq as [i [<- _]].
  apply (quadratic_at_same p).
Qed.

Lemma exact_degenerate_cubic (steps : Z) (p : Point F) :
  Forall (fun q => q = p) (cubic_polyline steps p p p p).
Proof.
  destruct (Z.ltb_spec 0 steps) as [Hs|Hs];
    [|unfold cubic_polyline, cubic_lines;
      rewrite polyline_no_iteration by exact Hs; constructor].
  rewrite cubic_polyline_map by exact Hs. constructor; [reflexivity|].
  apply Forall_forall. intros q Hq.
  apply in_map_iff in Hq. destruct Hq as [i [<- _]].
  apply (cubic_at_same p).
Qed.

Lemma exact_quadratic_bernstein (p0 p1 p2 : Point F) (t : F) :
  lerp t (lerp t p0 p1) (lerp t p1 p2) = bernstein2 p0 p1 p2 t.
Proof.
  destruct p0 as [x0 y0], p1 as [x1 y1], p2 as [x2 y2].
  unfold bernstein2, lerp, plus, scale. cbn [x y].
  rewrite of_int_2. f_equal; ring.
Qed.

Lemma exact_cubic_bernstein (p0 p1 p2 p3 : Point F) (t : F) :
  lerp t (lerp t (lerp t p0 p1) (lerp t p1 p2))
         (lerp t (lerp t p1 p2) (lerp t p2 p3))
  = bernstein3 p0 p1 p2 p3 t.
Proof.
  destruct p0 as [x0 y0], p1 as [x1 y1], p2 as [x2 y2], p3 as [x3 y3].
  unfold bernstein3, lerp, plus, scale. cbn [x y].
  rewrite of_int_3. f_equal; ring.
Qed.
End ExactFacts.

(** ** Rounding on the program's floats

    Multiplying by [1.0f], adding a zero and dividing a number by itself are
    exact; so are the interpolations at 0 and at 1, which is why a curve
    starts and ends on its control points whatever the rounding in between. *)

Section Rounding.
Import Binary32.

Lemma digits2_pos_size (p : positive) : digits2_pos p = Pos.size p.
Proof. induction p as [p IH|p IH|]; cbn; now rewrite ?IH. Qed.

(** A mantissa of [d] binary digits lies in [[2^(d-1), 2^d)]. *)
Lemma digits_bounds (p : positive) :
  2 ^ (Z.pos (digits2_pos p) - 1) <= Z.pos p < 2 ^ Z.pos (digits2_pos p).
Proof.
  rewrite digits2_pos_size.
  pose proof (Pos.size_gt p) as G. pose proof (Pos.size_le p) as L.
  apply Pos2Z.pos_lt_pos in G. apply Pos2Z.pos_le_pos in L.
  rewrite Pos2Z.inj_pow in G, L.
  change (Z.pos p~0) with (2 * Z.pos p) in L.
  change (Z.pos 2) with 2 in G, L.
  replace (Z.pos (Pos.size p)) with (Z.succ (Z.pos (Pos.size p) - 1)) in L at 1 by lia.
  rewrite Z.pow_succ_r in L by lia.
  lia.
Qed.

Lemma digits_unique (p : positive) (k : Z) :
  2 ^ (k - 1) <= Z.pos p < 2 ^ k -> Z.pos (digits2_pos p) = k.
Proof.
  intros [Lo Hi]. pose proof (digits_bounds p) as [Lo' Hi'].
  set (d := Z.pos (digits2_pos p)) in *.
  assert (0 < d) by (unfold d; lia).
  destruct (Z.lt_trichotomy d k) as [Lt|[Eq|Gt]]; [exfalso|exact Eq|exfalso].
  - assert (2 ^ d <= 2 ^ (k - 1)) by (apply Z.pow_le_mono_r; lia). lia.
  - assert (0 <= k \/ k < 0) as [Hk|Hk] by lia.
    + assert (2 ^ k <= 2 ^ (d - 1)) by (apply Z.pow_le_mono_r; lia). lia.
    + rewrite (Z.pow_neg_r 2 k) in Hi by lia. lia.
Qed.

Lemma digits2_pos_iter (p k : positive) :
  Z.pos (digits2_pos (Pos.iter xO p k)) = Z.pos (digits2_pos p) + Z.pos k.
Proof.
  induction k as [|k IH] using Pos.peano_ind.
  - cbn. lia.
  - rewrite Pos.iter_succ. cbn [digits2_pos]. lia.
Qed.

(** *** Shifting a mantissa to the right *)

Lemma shr_1_m (mrs : shr_record) :
  0 <= shr_m mrs -> shr_m (shr_1 mrs) = shr_m mrs / 2.
Proof.
  destruct mrs as [m r s]. cbn [shr_m]. intros Hm.
  destruct m as [|[p|p|]|p]; cbn [shr_1 shr_m]; try lia; try reflexivity.
  - apply Z.div_unique with 1; lia.
  - apply Z.div_unique with 0; lia.
Qed.

Lemma shr_iter_m (k : positive) (mrs : shr_record) :
  0 <= shr_m mrs -> shr_m (iter_pos shr_1 k mrs) = shr_m mrs / 2 ^ Z.pos k.
Proof.
  revert mrs.
  induction k as [k IH|k IH|]; intros mrs Hm; cbn [iter_pos].
  - assert (H1 : 0 <= shr_m (shr_1 mrs))
      by (rewrite shr_1_m by exact Hm; apply Z.div_pos; lia).
    assert (H2 : 0 <= shr_m (iter_pos shr_1 k (shr_1 mrs)))
      by (rewrite IH by exact H1; apply Z.div_pos; lia).
    rewrite IH, IH, shr_1_m by assumption.
    rewrite !Z.div_div by lia. f_equal.
    replace (Z.pos k~1) with (1 + (Z.pos k + Z.pos k)) by lia.
    rewrite !Z.pow_add_r by lia. reflexivity.
  - assert (H2 : 0 <= shr_m (iter_pos shr_1 k mrs))
      by (rewrite IH by exact Hm; apply Z.div_pos; lia).
    rewrite IH, IH by assumption.
    rewrite !Z.div_div by lia. f_equal.
    replace (Z.pos k~0) with (Z.pos k + Z.pos k) by lia.
    rewrite !Z.pow_add_r by lia. reflexivity.
  - rewrite shr_1_m by exact Hm. reflexivity.
Qed.

Lemma shr_record_of_loc_m (m : Z) (l : location) : shr_m (shr_record_of_loc m l) = m.
Proof. destruct l as [|[| |]]; reflexivity. Qed.

Lemma round_nearest_even_bounds (m : Z) (l : location) :
  m <= round_nearest_even m l <= m + 1.
Proof.
  destruct l as [|[| |]]; cbn [round_nearest_even]; try lia.
  destruct (Z.even m); lia.
Qed.

(** A mantissa of 24 digits or more, in the range of the normal numbers, is
    shifted down to 24 digits. *)
Lemma shr_fexp_normal (m : positive) (e : Z) (l : location) :
  24 <= Z.pos (digits2_pos m) ->
  -149 <= Z.pos (digits2_pos m) + e - 24 ->
  exists mrs : shr_record,
    shr_fexp prec emax (Z.pos m) e l = (mrs, Z.pos (digits2_pos m) + e - 24)
    /\ 2 ^ 23 <= shr_m mrs < 2 ^ 24.
Proof.
  intros Hd He. pose proof (digits_bounds m) as [Lo Hi].
  set (d := Z.pos (digits2_pos m)) in *.
  unfold shr_fexp, fexp, emin, prec, emax. cbn [Zdigits2]. fold d.
  replace (Z.max (d + e - 24) (3 - 128 - 24) - e) with (d - 24) by lia.
  destruct (d - 24) as [|k|k] eqn:Ek; [| |lia].
  - cbn [shr]. eexists. split; [f_equal; lia|].
    rewrite shr_record_of_loc_m.
    replace d with 24 in Lo, Hi by lia. cbn in Lo. lia.
  - cbn [shr]. eexists. split; [f_equal; lia|].
    rewrite shr_iter_m by (rewrite shr_record_of_loc_m; lia).
    rewrite shr_record_of_loc_m, <- Ek.
    assert (P : 2 ^ d = 2 ^ 24 * 2 ^ (d - 24))
      by (rewrite <- Z.pow_add_r by lia; f_equal; lia).
    assert (P' : 2 ^ (d - 1) = 2 ^ 23 * 2 ^ (d - 24))
      by (rewrite <- Z.pow_add_r by lia; f_equal; lia).
    assert (0 < 2 ^ (d - 24)) by (apply Z.pow_pos_nonneg; lia).
    split.
    + apply Z.div_le_lower_bound; lia.
    + apply Z.div_lt_upper_bound; lia.
Qed.

(** Rounding such a mantissa gives a finite [float]: neither zero nor an
    infinity. *)
Lemma binary_round_aux_finite (s : bool) (m : positive) (e : Z) (l : location) :
  24 <= Z.pos (digits2_pos m) ->
  -149 <= Z.pos (digits2_pos m) + e - 24 ->
  Z.pos (digits2_pos m) + e <= 127 ->
  exists (m' : positive) (e' : Z),
    binary_round_aux prec emax s (Z.pos m) e l = S754_finite s m' e'.
Proof.
  intros Hd He Hmax.
  destruct (shr_fexp_normal m e l Hd He) as [mrs [E1 B1]].
  unfold binary_round_aux. rewrite E1.
  set (e1 := Z.pos (digits2_pos m) + e - 24) in *.
  pose proof (round_nearest_even_bounds (shr_m mrs) (loc_of_shr_record mrs)) as B2.
  set (m2 := round_nearest_even (shr_m mrs) (loc_of_shr_record mrs)) in *.
  destruct m2 as [|q|q] eqn:Eq; [lia| |lia].
  assert (Hq : Z.pos q < 2 ^ 24 \/ Z.pos q = 2 ^ 24) by lia.
  destruct Hq as [Hq|Hq].
  - assert (Dq : Z.pos (digits2_pos q) = 24) by (apply digits_unique; cbn; lia).
    unfold shr_fexp, fexp, emin, prec, emax. cbn [Zdigits2]. rewrite Dq.
    replace (Z.max (24 + e1 - 24) (3 - 128 - 24) - e1) with 0 by lia.
    cbn [shr shr_record_of_loc shr_m].
    replace (e1 <=? 128 - 24) with true by (symmetry; apply Z.leb_le; lia).
    eauto.
  - assert (Dq : Z.pos (digits2_pos q) = 25) by (apply digits_unique; cbn; lia).
    unfold shr_fexp, fexp, emin, prec, emax. cbn [Zdigits2]. rewrite Dq.
    replace (Z.max (25 + e1 - 24) (3 - 128 - 24) - e1) with 1 by lia.
    injection Hq as ->.
    cbn [shr shr_record_of_loc iter_pos shr_1 shr_m orb].
    replace (e1 + 1 <=? 128 - 24) with true by (symmetry; apply Z.leb_le; lia).
    eauto.
Qed.

(** *** The conversion [(float) i] *)

(** Every positive [int] converts to a finite positive [float]. *)
Lemma float_of_int_finite (n : Z) :
  0 < n < 2 ^ 31 ->
  exists (m : positive) (e : Z), float_of_int n = S754_finite false m e.
Proof.
  intros [Hn Hi]. destruct n as [|p|p]; try lia.
  pose proof (digits_bounds p) as [Lo _].
  assert (Hd : Z.pos (digits2_pos p) <= 31).
  { assert (Hlt : Z.pos (digits2_pos p) - 1 < 31); [|lia].
    apply (Z.pow_lt_mono_r_iff 2); lia. }
  unfold float_of_int, binary_normalize, binary_round, shl_align.
  set (d := Z.pos (digits2_pos p)) in *.
  unfold fexp, emin, prec, emax.
  replace (Z.max (d + 0 - 24) (3 - 128 - 24) - 0) with (d - 24) by lia.
  replace (Z.max (d + 0 - 24) (3 - 128 - 24)) with (d - 24) by lia.
  destruct (d - 24) as [|k|k] eqn:Ek.
  - apply binary_round_aux_finite; fold d; lia.
  - apply binary_round_aux_finite; fold d; lia.
  - apply binary_round_aux_finite; rewrite digits2_pos_iter; fold d; lia.
Qed.

(** *** Exact operations *)

Lemma div_same_finite (s : bool) (m : positive) (e : Z) :
  SFdiv prec emax (S754_finite s m e) (S754_finite s m e) = one.
Proof.
  cbn [SFdiv]. unfold SFdiv_core_binary.
  replace (Zdigits2 (Z.pos m) + e - (Zdigits2 (Z.pos m) + e)) with 0 by lia.
  rewrite Z.sub_diag.
  change (Z.min (fexp prec emax 0) 0) with (-24).
  change (0 - -24) with 24.
  cbv iota beta.
  assert (E : Z.div_eucl (Z.shiftl (Z.pos m) 24) (Z.pos m) = (16777216, 0)).
  { rewrite Z.shiftl_mul_pow2 by lia.
    pose proof (Z_div_mod (Z.pos m * 2 ^ 24) (Z.pos m) ltac:(lia)) as D.
    destruct (Z.div_eucl (Z.pos m * 2 ^ 24) (Z.pos m)) as [q r].
    destruct D as [D1 D2].
    assert (r = 0 /\ q = 2 ^ 24) as [-> ->].
    { assert (Hq : Z.pos m * (2 ^ 24 - q) = r) by lia.
      assert (2 ^ 24 - q = 0 \/ 2 ^ 24 - q >= 1 \/ 2 ^ 24 - q <= -1)
        as [Hz|[G|L]] by lia.
      - rewrite Hz in Hq. lia.
      - exfalso. nia.
      - exfalso. nia. }
    reflexivity. }
  rewrite E.
  assert (L : new_location (Z.pos m) 0 = loc_Exact)
    by (unfold new_location; destruct (Z.even (Z.pos m)); reflexivity).
  rewrite L.
  destruct s; reflexivity.
Qed.

(** [(float) STEPS / STEPS] is [1.0f]: the last iteration has [interp = 1]. *)
Lemma float_div_same (n : Z) :
  0 < n < 2 ^ 31 -> div (of_int n) (of_int n) = (of_int 1 : float).
Proof.
  intros Hn. destruct (float_of_int_finite n Hn) as [m [e E]].
  change (SFdiv prec emax (float_of_int n) (float_of_int n) = one).
  rewrite E. apply div_same_finite.
Qed.

Lemma digits2_pos_shift23 (m : positive) :
  digits2_pos (m~0~0~0~0~0~0~0~0~0~0~0~0~0~0~0~0~0~0~0~0~0~0~0)
  = (digits2_pos m + 23)%positive.
Proof. cbn [digits2_pos]. lia. Qed.

(** [1.0f * q] is [q] for every [float] in normal form. *)
Lemma mul_one_l (q : float) :
  valid_binary prec emax q = true -> SFmul prec emax one q = q.
Proof.
  destruct q as [s|s| |s m e]; try reflexivity.
  cbn [valid_binary]. unfold bounded, canonical_mantissa.
  intros Hb. apply andb_prop in Hb. destruct Hb as [Hc He].
  apply Z.eqb_eq in Hc.
  unfold one. cbn [SFmul xorb].
  change (Pos.mul 8388608 m)
    with (m~0~0~0~0~0~0~0~0~0~0~0~0~0~0~0~0~0~0~0~0~0~0~0)%positive.
  unfold binary_round_aux, shr_fexp.
  cbn [Zdigits2]. rewrite digits2_pos_shift23.
  replace (Z.pos (digits2_pos m + 23) + (-23 + e)) with (Z.pos (digits2_pos m) + e)
    by lia.
  rewrite Hc.
  replace (e - (-23 + e)) with 23 by lia.
  cbn [shr shr_record_of_loc iter_pos shr_1 orb].
  cbn [round_nearest_even shr_m loc_of_shr_record Zdigits2].
  replace (-23 + e + 23) with e by lia.
  rewrite Hc, Z.sub_diag. cbn [shr shr_record_of_loc shr_m].
  rewrite He. reflexivity.
Qed.

Lemma is_number_valid (a : float) :
  is_number a = true -> valid_binary prec emax a = true.
Proof. unfold is_number. intros Ha. now apply andb_prop in Ha. Qed.

Lemma is_number_cases (a : float) :
  is_number a = true ->
  (exists s : bool, a = S754_zero s)
  \/ (exists (s : bool) (m : positive) (e : Z), a = S754_finite s m e).
Proof.
  unfold is_number. intros Ha. apply andb_prop in Ha. destruct Ha as [_ Ha].
  destruct a as [s|s| |s m e]; try discriminate; eauto.
Qed.

Lemma same_number_refl (a : float) : same_number a a.
Proof. now left. Qed.

Lemma same_number_trans (a b c : float) :
  same_number a b -> same_number b c -> same_number a c.
Proof.
  intros [Eab|[s [s' [Ea Eb]]]] [Ebc|[t [t' [Eb' Ec]]]]; subst.
  - now left.
  - right. eauto.
  - right. eauto.
  - right. eauto.
Qed.

Lemma same_number_is_number (a b : float) :
  same_number a b -> is_number b = true -> is_number a = true.
Proof. intros [->|[s [s' [-> ->]]]] Hb; [exact Hb|reflexivity]. Qed.

(** Numbers that are the same compare equal with [==]. *)
Lemma same_number_feqb (a b : float) :
  same_number a b -> is_number b = true -> feqb a b = true.
Proof.
  intros [->|[s [s' [-> ->]]]] Hb; [|reflexivity].
  destruct (is_number_cases b Hb) as [[s ->]|[s [m [e ->]]]]; [reflexivity|].
  unfold feqb, SFeqb, SFcompare.
  rewrite Z.compare_refl, Pos.compare_cont_refl. destruct s; reflexivity.
Qed.

Lemma add_zero_l (s : bool) (b : float) :
  is_number b = true -> same_number (SFadd prec emax (S754_zero s) b) b.
Proof.
  intros Hb. destruct (is_number_cases b Hb) as [[s' ->]|[s' [m [e ->]]]].
  - right. destruct s, s'; cbn; eauto.
  - now left.
Qed.


Lemma mul_zero_l (a : float) :
  is_number a = true ->
  exists s : bool, SFmul prec emax (S754_zero false) a = S754_zero s.
Proof.
  intros Ha. destruct (is_number_cases a Ha) as [[s' ->]|[s' [m [e ->]]]];
    cbn; eauto.
Qed.

(** *** Interpolation at 0 and at 1 *)

Lemma same_point_trans (p q r : Point float) :
  same_point p q -> same_point q r -> same_point p r.
Proof.
  intros [Hx Hy] [Hx' Hy']. split; eapply same_number_trans; eassumption.
Qed.

Lemma same_point_is_point (p q : Point float) :
  same_point p q -> is_point q = true -> is_point p = true.
Proof.
  unfold is_point. intros [Hx Hy] Hq. apply andb_prop in Hq. destruct Hq as [Qx Qy].
  apply andb_true_intro. split; eapply same_number_is_number; eassumption.
Qed.

Lemma same_point_eqb (p q : Point float) :
  same_point p q -> is_point q = true -> point_eqb p q = true.
Proof.
  unfold is_point, point_eqb. intros [Hx Hy] Hq.
  apply andb_prop in Hq. destruct Hq as [Qx Qy].
  apply andb_true_intro. split; apply same_number_feqb; assumption.
Qed.

Lemma float_lerp_1 (a b : Point float) :
  is_point a = true -> is_point b = true -> same_point (lerp (of_int 1) a b) b.
Proof.
  unfold is_point. intros Ha Hb.
  apply andb_prop in Ha. destruct Ha as [Hax Hay].
  apply andb_prop in Hb. destruct Hb as [Hbx Hby].
  unfold lerp, same_point. cbn [x y].
  change (sub (of_int 1) (of_int 1)) with (S754_zero false).
  change (mul (of_int 1) ?q) with (SFmul prec emax one q).
  rewrite !mul_one_l by (apply is_number_valid; assumption).
  change (mul (S754_zero false) ?q) with (SFmul prec emax (S754_zero false) q).
  destruct (mul_zero_l _ Hax) as [sx ->]. destruct (mul_zero_l _ Hay) as [sy ->].
  split; apply add_zero_l; assumption.
Qed.


Lemma float_quadratic_at_1 (p0 p1 p2 : Point float) :
  is_point p0 = true -> is_point p1 = true -> is_point p2 = true ->
  same_point (quadratic_at p0 p1 p2 (of_int 1)) p2.
Proof.
  intros H0 H1 H2. unfold quadratic_at.
  pose proof (float_lerp_1 p0 p1 H0 H1) as A.
  pose proof (float_lerp_1 p1 p2 H1 H2) as B.
  eapply same_point_trans; [|exact B].
  apply float_lerp_1; eapply same_point_is_point; eassumption.
Qed.

Lemma float_cubic_at_1 (p0 p1 p2 p3 : Point float) :
  is_point p0 = true -> is_point p1 = true -> is_point p2 = true ->
  is_point p3 = true ->
  same_point (cubic_at p0 p1 p2 p3 (of_int 1)) p3.
Proof.
  intros H0 H1 H2 H3.
  change (cubic_at p0 p1 p2 p3 (of_int 1))
    with (lerp (of_int 1) (quadratic_at p0 p1 p2 (of_int 1))
                          (quadratic_at p1 p2 p3 (of_int 1))).
  pose proof (float_quadratic_at_1 p0 p1 p2 H0 H1 H2) as A.
  pose proof (float_quadratic_at_1 p1 p2 p3 H1 H2 H3) as B.
  eapply same_point_trans; [|exact B].
  apply float_lerp_1; eapply same_point_is_point; eassumption.
Qed.

(** On floats too both curves end on their last control point, for every
    positive step count below [INT_MAX] and all control points that are
    numbers. *)
Lemma float_quadratic_ends (steps : Z) (p0 p1 p2 : Point float) :
  0 < steps < INT_MAX ->
  is_point p0 = true -> is_point p1 = true -> is_point p2 = true ->
  point_eqb (last (quadratic_polyline steps p0 p1 p2) p0) p2 = true.
Proof.
  intros Hs H0 H1 H2.
  rewrite quadratic_polyline_map, last_map_steps by lia.
  unfold quadratic_point. rewrite float_div_same by (unfold INT_MAX in Hs; lia).
  apply same_point_eqb; [|exact H2].
  now apply float_quadratic_at_1.
Qed.

Lemma float_cubic_ends (steps : Z) (p0 p1 p2 p3 : Point float) :
  0 < steps < INT_MAX ->
  is_point p0 = true -> is_point p1 = true -> is_point p2 = true ->
  is_point p3 = true ->
  point_eqb (last (cubic_polyline steps p0 p1 p2 p3) p0) p3 = true.
Proof.
  intros Hs H0 H1 H2 H3.
  rewrite cubic_polyline_map, last_map_steps by lia.
  unfold cubic_point. rewrite float_div_same by (unfold INT_MAX in Hs; lia).
  apply same_point_eqb; [|exact H3].
  now apply float_cubic_at_1.
Qed.
End Rounding.

(** ** The program at the inputs of [main] *)

(** The control points of [main] as [float] values: [0.2f] is
    [13421773 * 2^-26], and so on; all are numbers in normal form. *)
Example binary32_control_points :
  Binary32.QUAD_P0 = {| x := S754_finite false 13421773 (-26);
                        y := S754_finite false 13421773 (-26) |}
  /\ Binary32.QUAD_P1 = {| x := S754_finite false 8388608 (-24);
                           y := S754_finite false 15099494 (-24) |}
  /\ Binary32.QUAD_P2 = {| x := S754_finite false 15099494 (-24);
                           y := S754_finite false 13421773 (-27) |}
  /\ Binary32.CUBIC_P3 = {| x := S754_finite false 13421773 (-24);
                            y := S754_finite false 13421773 (-25) |}
  /\ forallb Binary32.is_point
       [Binary32.QUAD_P0; Binary32.QUAD_P1; Binary32.QUAD_P2; Binary32.CUBIC_P0;
        Binary32.CUBIC_P1; Binary32.CUBIC_P2; Binary32.CUBIC_P3] = true.
Proof. repeat split; vm_compute; reflexivity. Qed.

(** The frame of [main]: the two calls of [clear], then per curve one colour
    and [STEPS] lines, then the presentation. *)
Example binary32_main_frame_calls :
  length Binary32.main_frame = 45%nat
  /\ hd_error Binary32.main_frame = Some (SDL_SetRenderDrawColor 0 0 0 255)
  /\ last Binary32.main_frame SDL_RenderClear = SDL_RenderPresent.
Proof. repeat split; vm_compute; reflexivity. Qed.

(** The frame of [main] in full, with the pixels each line joins. *)
Example binary32_main_frame_pixels :
  Binary32.main_frame
  = [SDL_SetRenderDrawColor 0 0 0 255; SDL_RenderClear;
     SDL_SetRenderDrawColor 0 255 0 255;
     SDL_RenderDrawLine (Some 80) (Some 80) (Some 92) (Some 106);
     SDL_RenderDrawLine (Some 92) (Some 106) (Some 104) (Some 129);
     SDL_RenderDrawLine (Some 104) (Some 129) (Some 116) (Some 150);
     SDL_RenderDrawLine (Some 116) (Some 150) (Some 129) (Some 168);
     SDL_RenderDrawLine (Some 129) (Some 168) (Some 142) (Some 182);
     SDL_RenderDrawLine (Some 142) (Some 182) (Some 155) (Some 194);
     SDL_RenderDrawLine (Some 155) (Some 194) (Some 168) (Some 202);
     SDL_RenderDrawLine (Some 168) (Some 202) (Some 182) (Some 208);
     SDL_RenderDrawLine (Some 182) (Some 208) (Some 196) (Some 210);
     SDL_RenderDrawLine (Some 196) (Some 210) (Some 209) (Some 209);
     SDL_RenderDrawLine (Some 209) (Some 209) (Some 224) (Some 206);
     SDL_RenderDrawLine (Some 224) (Some 206) (Some 238) (Some 199);
     SDL_RenderDrawLine (Some 238) (Some 199) (Some 252) (Some 190);
     SDL_RenderDrawLine (Some 252) (Some 190) (Some 267) (Some 178);
     SDL_RenderDrawLine (Some 267) (Some 178) (Some 282) (Some 162);
     SDL_RenderDrawLine (Some 282) (Some 162) (Some 297) (Some 144);
     SDL_RenderDrawLine (Some 297) (Some 144) (Some 312) (Some 122);
     SDL_RenderDrawLine (Some 312) (Some 122) (Some 328) (Some 98);
     SDL_RenderDrawLine (Some 328) (Some 98) (Some 344) (Some 70);
     SDL_RenderDrawLine (Some 344) (Some 70) (Some 360) (Some 40);
     SDL_SetRenderDrawColor 255 0 0 255;
     SDL_RenderDrawLine (Some 40) (Some 360) (Some 52) (Some 324);
     SDL_RenderDrawLine (Some 52) (Some 324) (Some 64) (Some 299);
     SDL_RenderDrawLine (Some 64) (Some 299) (Some 76) (Some 284);
     SDL_RenderDrawLine (Some 76) (Some 284) (Some 88) (Some 277);
     SDL_RenderDrawLine (Some 88) (Some 277) (Some 100) (Some 278);
     SDL_RenderDrawLine (Some 100) (Some 278) (Some 113) (Some 284);
     SDL_RenderDrawLine (Some 113) (Some 284) (Some 125) (Some 294);
     SDL_RenderDrawLine (Some 125) (Some 294) (Some 138) (Some 306);
     SDL_RenderDrawLine (Some 138) (Some 306) (Some 151) (Some 320);
     SDL_RenderDrawLine (Some 151) (Some 320) (Some 165) (Some 335);
     SDL_RenderDrawLine (Some 165) (Some 335) (Some 178) (Some 347);
     SDL_RenderDrawLine (Some 178) (Some 347) (Some 192) (Some 357);
     SDL_RenderDrawLine (Some 192) (Some 357) (Some 206) (Some 362);
     SDL_RenderDrawLine (Some 206) (Some 362) (Some 221) (Some 361);
     SDL_RenderDrawLine (Some 221) (Some 361) (Some 236) (Some 354);
     SDL_RenderDrawLine (Some 236) (Some 354) (Some 252) (Some 338);
     SDL_RenderDrawLine (Some 252) (Some 338) (Some 268) (Some 312);
     SDL_RenderDrawLine (Some 268) (Some 312) (Some 285) (Some 274);
     SDL_RenderDrawLine (Some 285) (Some 274) (Some 302) (Some 224);
     SDL_RenderDrawLine (Some 302) (Some 224) (Some 320) (Some 160);
     SDL_RenderPresent].
Proof. vm_compute. reflexivity. Qed.

(** Both loops of [main] are left after their 20 iterations, at the 21st
    test, and not before. *)
Example binary32_main_loops_return :
  run_draw_bezier_quadratic 21 STEPS (clear []) Binary32.QUAD_P0 Binary32.QUAD_P1
                            Binary32.QUAD_P2
  = {| finished := true;
       so_far := draw_bezier_quadratic STEPS (clear []) Binary32.QUAD_P0
                   Binary32.QUAD_P1 Binary32.QUAD_P2 |}
  /\ finished (run_quadratic_lines 20 STEPS Binary32.QUAD_P0 Binary32.QUAD_P1
                                   Binary32.QUAD_P2) = false
  /\ finished (run_cubic_lines 21 STEPS Binary32.CUBIC_P0 Binary32.CUBIC_P1
                               Binary32.CUBIC_P2 Binary32.CUBIC_P3) = true
  /\ finished (run_cubic_lines 20 STEPS Binary32.CUBIC_P0 Binary32.CUBIC_P1
                               Binary32.CUBIC_P2 Binary32.CUBIC_P3) = false.
Proof. repeat split; vm_compute; reflexivity. Qed.

(** Both curves of [main] end on their last control point, bit for bit. *)
Example binary32_main_curves_end :
  last (quadratic_polyline STEPS Binary32.QUAD_P0 Binary32.QUAD_P1 Binary32.QUAD_P2)
       Binary32.QUAD_P0 = Binary32.QUAD_P2
  /\ last (cubic_polyline STEPS Binary32.CUBIC_P0 Binary32.CUBIC_P1
                                Binary32.CUBIC_P2 Binary32.CUBIC_P3)
          Binary32.CUBIC_P0 = Binary32.CUBIC_P3.
Proof. split; vm_compute; reflexivity. Qed.

(** One coordinate of a curve whose control points are all (0.2f, 0.2f),
    at iteration 2 of 20.  [interp] is 0.1f; [1 - interp] is rounded, so that
    [(1 - interp) + interp] is no longer one, and the two products are
    rounded again: the first interpolation gives [13421772 * 2^-26] instead
    of [13421773 * 2^-26], the second one [13421771 * 2^-26]. *)
Example binary32_degenerate_trace :
  let p := Binary32.literal 2 10 in
  let interp : Binary32.float := div (of_int 2) (of_int STEPS) in
  let q := add (mul (sub (of_int 1) interp) p) (mul interp p) in
  p = S754_finite false 13421773 (-26)
  /\ interp = S754_finite false 13421773 (-27)
  /\ sub (of_int 1) interp = S754_finite false 15099494 (-24)
  /\ mul (sub (of_int 1) interp) p = S754_finite false 12079595 (-26)
  /\ mul interp p = S754_finite false 10737419 (-29)
  /\ q = S754_finite false 13421772 (-26)
  /\ add (mul (sub (of_int 1) interp) q) (mul interp q)
     = S754_finite false 13421771 (-26).
Proof. repeat split; vm_compute; reflexivity. Qed.

(** ** Properties of the interpolation and of the curves *)

(** C3.  For every blend factor, inside [0,1] or not, and every two points
    the interpolator returns the point [(1-t)·a + t·b], coordinate by
    coordinate; it is a function defined on all its arguments, in every
    arithmetic.  In exact arithmetic that point lies on the line through [a]
    and [b]: a factor outside [0,1] extrapolates, as 2 does to the point as
    far beyond [b] as [a] is before it. *)
Theorem lerp_blend :
  (forall (F : Type) (A : Arith F) (t : F) (a b : Point F),
     lerp t a b = blend t a b
     /\ x (lerp t a b) = ((of_int 1 - t) * x a + t * x b)%arith
     /\ y (lerp t a b) = ((of_int 1 - t) * y a + t * y b)%arith)
  /\ (forall (F : Type) (A : Arith F), Exact F ->
        forall (t : F) (a b : Point F),
          lerp t a b = plus a (scale t (minus b a))
          /\ lerp (of_int 2) a b = plus b (minus b a)).
Proof.
  split.
  - intros F A t a b. repeat split.
  - intros F A E t a b. split; [apply lerp_line | apply lerp_beyond].
Qed.

(** C5.  At [t = 1] the routines reproduce the last control point.  In exact
    arithmetic the polyline of either routine ends at it for every positive
    step count below [INT_MAX], and the cubic curve through (0,0), (0,1),
    (1,1), (1,0) drawn with one step has (1,0) as its single computed point.
    The same holds on the program's floats, for every positive step count
    below [INT_MAX] and control points that are numbers. *)
Theorem polyline_ends_at_last_control_point :
  (forall (F : Type) (A : Arith F), Exact F ->
     forall (steps : Z) (q0 q1 q2 p0 p1 p2 p3 : Point F),
       0 < steps < INT_MAX ->
       last (quadratic_polyline steps q0 q1 q2) q0 = q2
       /\ last (cubic_polyline steps p0 p1 p2 p3) p0 = p3
       /\ cubic_polyline 1 (point_of_ints 0 0) (point_of_ints 0 1)
                           (point_of_ints 1 1) (point_of_ints 1 0)
          = [point_of_ints 0 0; point_of_ints 1 0])
  /\ (forall (steps : Z) (q0 q1 q2 p0 p1 p2 p3 : Point Binary32.float),
        0 < steps < INT_MAX ->
        forallb Binary32.is_point [q0; q1; q2; p0; p1; p2; p3] = true ->
        Binary32.point_eqb (last (quadratic_polyline steps q0 q1 q2) q0) q2 = true
        /\ Binary32.point_eqb (last (cubic_polyline steps p0 p1 p2 p3) p0) p3 = true)
  /\ cubic_polyline (F := Binary32.float) 1
       (point_of_ints 0 0) (point_of_ints 0 1) (point_of_ints 1 1) (point_of_ints 1 0)
     = [point_of_ints 0 0; point_of_ints 1 0].
Proof.
  split; [|split].
  - intros F A E steps q0 q1 q2 p0 p1 p2 p3 [Hs _].
    split; [now apply exact_quadratic_ends|].
    split; [now apply exact_cubic_ends | apply exact_cubic_one_step].
  - intros steps q0 q1 q2 p0 p1 p2 p3 Hs Hp. cbn [forallb] in Hp.
    repeat (apply andb_prop in Hp; destruct Hp as [? Hp]).
    split; [now apply float_quadratic_ends | now apply float_cubic_ends].
  - vm_compute. reflexivity.
Qed.


(** C7, amended.  In exact arithmetic, if all control points of a routine are
    one and the same point, every point of its polyline is that point, for
    every positive step count below [INT_MAX].  On the program's floats the
    first line starts at that point and the last one ends on it. *)
Theorem degenerate_curve :
  (forall (F : Type) (A : Arith F), Exact F ->
     forall (steps : Z) (p : Point F),
       0 < steps < INT_MAX ->
       Forall (fun q => q = p) (quadratic_polyline steps p p p)
       /\ Forall (fun q => q = p) (cubic_polyline steps p p p p))
  /\ (forall (steps : Z) (p : Point Binary32.float),
        0 < steps < INT_MAX ->
        Binary32.is_point p = true ->
        (hd_error (map line_from (quadratic_lines steps p p p)) = Some p
         /\ hd_error (quadratic_polyline steps p p p) = Some p
         /\ Binary32.point_eqb (last (quadratic_polyline steps p p p) p) p = true)
        /\ (hd_error (map line_from (cubic_lines steps p p p p)) = Some p
            /\ hd_error (cubic_polyline steps p p p p) = Some p
            /\ Binary32.point_eqb (last (cubic_polyline steps p p p p) p) p = true)).
Proof.
  split.
  - intros F A E steps p _.
    split; [apply exact_degenerate_quadratic | apply exact_degenerate_cubic].
  - intros steps p Hs Hp.
    assert (Hfrom : forall lines : list (Line Binary32.float),
              hd_error (map line_from lines) = hd_error (polyline lines))
      by (intros [|first rest]; reflexivity).
    rewrite !Hfrom. fold (quadratic_polyline steps p p p).
    fold (cubic_polyline steps p p p p).
    split.
    + rewrite (quadratic_polyline_map steps p p p) at 1 2 by lia.
      split; [reflexivity|]. split; [reflexivity|].
      now apply float_quadratic_ends.
    + rewrite (cubic_polyline_map steps p p p p) at 1 2 by lia.
      split; [reflexivity|]. split; [reflexivity|].
      now apply float_cubic_ends.
Qed.

(** C8.  The quadratic curve through (0,0), (1,0), (1,1) drawn with two steps
    has (0.75, 0.25) as its middle point, the one at [t = 0.5]: in exact
    arithmetic, and bit for bit on the program's floats. *)
Theorem quadratic_example_midpoint :
  (forall (F : Type) (A : Arith F), Exact F ->
     quadratic_polyline 2 (point_of_ints 0 0) (point_of_ints 1 0) (point_of_ints 1 1)
     = [point_of_ints 0 0;
        {| x := of_int 3 / of_int 4; y := of_int 1 / of_int 4 |}%arith;
        point_of_ints 1 1]
     /\ nth_error (quadratic_polyline 2 (point_of_ints 0 0) (point_of_ints 1 0)
                                        (point_of_ints 1 1)) 1
        = Some {| x := of_int 3 / of_int 4; y := of_int 1 / of_int 4 |}%arith)
  /\ (quadratic_polyline (F := Binary32.float) 2
        (point_of_ints 0 0) (point_of_ints 1 0) (point_of_ints 1 1)
      = [point_of_ints 0 0;
         {| x := Binary32.literal 75 100; y := Binary32.literal 25 100 |};
         point_of_ints 1 1]
      /\ nth_error (quadratic_polyline (F := Binary32.float) 2
                      (point_of_ints 0 0) (point_of_ints 1 0) (point_of_ints 1 1)) 1
         = Some {| x := Binary32.literal 75 100; y := Binary32.literal 25 100 |}).
Proof.
  split.
  - intros F A E. rewrite exact_quadratic_two_steps. split; reflexivity.
  - split; vm_compute; reflexivity.
Qed.

(** C10.  In exact arithmetic the nested interpolation is the Bernstein form
    of the curve: for every [t] and all control points
    [interpolate(t, interpolate(t,p0,p1), interpolate(t,p1,p2))] is
    [(1-t)^2·p0 + 2t(1-t)·p1 + t^2·p2], the triple nesting of the cubic
    routine is the Bernstein form of degree 3, and so is every point the two
    loops compute. *)
Theorem de_casteljau_bernstein {F : Type} `{Exact F}
    (t : F) (q0 q1 q2 p0 p1 p2 p3 : Point F) :
  lerp t (lerp t q0 q1) (lerp t q1 q2) = bernstein2 q0 q1 q2 t
  /\ lerp t (lerp t (lerp t p0 p1) (lerp t p1 p2))
            (lerp t (lerp t p1 p2) (lerp t p2 p3))
     = bernstein3 p0 p1 p2 p3 t
  /\ (forall steps i : Z,
        quadratic_current steps q0 q1 q2 i
        = bernstein2 q0 q1 q2 (of_int i / of_int steps)%arith)
  /\ (forall steps i : Z,
        cubic_current steps p0 p1 p2 p3 i
        = bernstein3 p0 p1 p2 p3 (of_int i / of_int steps)%arith).
Proof.
  split; [apply exact_quadratic_bernstein|].
  split; [apply exact_cubic_bernstein|].
  split; intros steps i.
  - apply exact_quadratic_bernstein.
  - apply exact_cubic_bernstein.
Qed.

(** ** Step counts that are not positive, and [INT_MAX] *)

Section Rejection.
Context {F : Type} `{Arith F}.

Lemma quadratic_lines_nonpositive (steps : Z) (p0 p1 p2 : Point F) :
  steps <= 0 -> quadratic_lines steps p0 p1 p2 = [].
Proof. intros Hs. apply for_loop_exit. lia. Qed.

Lemma cubic_lines_nonpositive (steps : Z) (p0 p1 p2 p3 : Point F) :
  steps <= 0 -> cubic_lines steps p0 p1 p2 p3 = [].
Proof. intros Hs. apply for_loop_exit. lia. Qed.

(** A call that has an outcome has succeeded. *)
Lemma outcome_of_succeeds {A : Type} (run : Progress A) :
  outcome_of run <> Some InvalidArgument.
Proof. unfold outcome_of. destruct (finished run); discriminate. Qed.

(** C9, amended.  The routines validate nothing and have no error outcome:
    no call, whatever its arguments, is rejected.  With a step count below
    [INT_MAX] the call returns, having drawn as many lines as the loop has
    iterations; with a step count of zero or less the loop body never runs,
    so that the call only sets the colour and draws no line.  With the step
    count [INT_MAX] the call does not return. *)
Theorem evaluators_never_reject
    (steps : Z) (renderer : Renderer) (q0 q1 q2 p0 p1 p2 p3 : Point F) :
  (forall fuel : nat,
     call_draw_bezier_quadratic fuel steps renderer q0 q1 q2 <> Some InvalidArgument
     /\ call_draw_bezier_cubic fuel steps renderer p0 p1 p2 p3 <> Some InvalidArgument)
  /\ (steps < INT_MAX ->
      (forall fuel : nat, (Z.to_nat steps < fuel)%nat ->
         call_draw_bezier_quadratic fuel steps renderer q0 q1 q2
         = Some (Succeeds (draw_bezier_quadratic steps renderer q0 q1 q2))
         /\ call_draw_bezier_cubic fuel steps renderer p0 p1 p2 p3
            = Some (Succeeds (draw_bezier_cubic steps renderer p0 p1 p2 p3)))
      /\ length (quadratic_lines steps q0 q1 q2) = Z.to_nat steps
      /\ length (cubic_lines steps p0 p1 p2 p3) = Z.to_nat steps)
  /\ (steps <= 0 ->
      call_draw_bezier_quadratic 1 steps renderer q0 q1 q2
      = Some (Succeeds (renderer ++ [SDL_SetRenderDrawColor 0 255 0 SDL_ALPHA_OPAQUE]))
      /\ call_draw_bezier_cubic 1 steps renderer p0 p1 p2 p3
         = Some (Succeeds (renderer ++ [SDL_SetRenderDrawColor 255 0 0 SDL_ALPHA_OPAQUE]))
      /\ quadratic_lines steps q0 q1 q2 = []
      /\ cubic_lines steps p0 p1 p2 p3 = [])
  /\ (forall fuel : nat,
        call_draw_bezier_quadratic fuel INT_MAX renderer q0 q1 q2 = None
        /\ call_draw_bezier_cubic fuel INT_MAX renderer p0 p1 p2 p3 = None).
Proof.
  split; [|split; [|split]].
  - intros fuel. split; apply outcome_of_succeeds.
  - intros Hs. split; [|split].
    + intros fuel Hfuel.
      unfold call_draw_bezier_quadratic, call_draw_bezier_cubic.
      rewrite run_draw_bezier_quadratic_returns, run_draw_bezier_cubic_returns
        by assumption.
      split; reflexivity.
    + apply quadratic_lines_length.
    + apply cubic_lines_length.
  - intros Hs.
    unfold call_draw_bezier_quadratic, call_draw_bezier_cubic.
    rewrite run_draw_bezier_quadratic_returns, run_draw_bezier_cubic_returns
      by (unfold INT_MAX; lia).
    unfold outcome_of, draw_bezier_quadratic, draw_bezier_cubic.
    cbn [finished so_far].
    rewrite quadratic_lines_nonpositive, cubic_lines_nonpositive by exact Hs.
    repeat split.
  - intros fuel.
    unfold call_draw_bezier_quadratic, call_draw_bezier_cubic, outcome_of,
           run_draw_bezier_quadratic, run_draw_bezier_cubic.
    cbn [finished].
    destruct (run_quadratic_lines_INT_MAX fuel q0 q1 q2) as [-> _].
    destruct (run_cubic_lines_INT_MAX fuel p0 p1 p2 p3) as [-> _].
    split; reflexivity.
Qed.
End Rejection.

(** ** Where the program departs from the specification *)


(** C7, as stated, on the program's floats.  With the step count of the
    source, 20, and the three control points all at [QUAD_P0] = (0.2f, 0.2f),
    the point of index 2 is (0.19999997, 0.19999997), as traced in
    [binary32_degenerate_trace].  Five of the 21 points of that polyline
    differ from the shared point. *)
Lemma degenerate_binary32_counterexample :
  nth_error (quadratic_polyline STEPS Binary32.QUAD_P0 Binary32.QUAD_P0 Binary32.QUAD_P0) 2
  = Some {| x := S754_finite false 13421771 (-26);
            y := S754_finite false 13421771 (-26) |}
  /\ length (filter (fun q => negb (Binary32.point_eqb q Binary32.QUAD_P0))
               (quadratic_polyline STEPS Binary32.QUAD_P0 Binary32.QUAD_P0
                                   Binary32.QUAD_P0)) = 5%nat
  /\ ~ (forall (steps : Z) (p : Point Binary32.float),
          0 < steps ->
          Forall (fun q => Binary32.point_eqb q p = true)
                 (quadratic_polyline steps p p p)
          /\ Forall (fun q => Binary32.point_eqb q p = true)
                    (cubic_polyline steps p p p p)).
Proof.
  split; [vm_compute; reflexivity|]. split; [vm_compute; reflexivity|].
  intros claim.
  destruct (claim STEPS Binary32.QUAD_P0 eq_refl) as [quadratic _].
  rewrite Forall_forall in quadratic.
  specialize (quadratic {| x := S754_finite false 13421771 (-26);
                           y := S754_finite false 13421771 (-26) |}).
  assert (E : Binary32.point_eqb
                {| x := S754_finite false 13421771 (-26);
                   y := S754_finite false 13421771 (-26) |}
                Binary32.QUAD_P0 = false) by (vm_compute; reflexivity).
  rewrite E in quadratic.
  assert (absurd : false = true); [|discriminate absurd].
  apply quadratic. vm_compute. tauto.
Qed.

(** C9, as stated.  Called with the control points of [main] and a step count
    of 0, or of -1, the routines are not rejected: the loop is left at its
    first test and the call succeeds, having set the colour and drawn no
    line. *)
Lemma malformed_steps_counterexample :
  call_draw_bezier_quadratic 1 0 [] Binary32.QUAD_P0 Binary32.QUAD_P1 Binary32.QUAD_P2
  = Some (Succeeds [SDL_SetRenderDrawColor 0 255 0 255])
  /\ call_draw_bezier_cubic 1 (-1) [] Binary32.CUBIC_P0 Binary32.CUBIC_P1
                                      Binary32.CUBIC_P2 Binary32.CUBIC_P3
     = Some (Succeeds [SDL_SetRenderDrawColor 255 0 0 255])
  /\ ~ (forall (steps : Z) (renderer : Renderer)
               (p0 p1 p2 : Point Binary32.float),
          steps <= 0 ->
          exists fuel : nat,
            call_draw_bezier_quadratic fuel steps renderer p0 p1 p2
            = Some InvalidArgument).
Proof.
  split; [reflexivity|]. split; [reflexivity|].
  intros claim.
  destruct (claim 0 [] Binary32.QUAD_P0 Binary32.QUAD_P1 Binary32.QUAD_P2)
    as [fuel rejected]; [lia|].
  exact (outcome_of_succeeds _ rejected).
Qed.

(** ** The theorems at the inputs of [main] *)

Lemma quadratic_polyline_correct_witness :
  0 < STEPS < INT_MAX
  /\ run_quadratic_lines 21 STEPS Binary32.QUAD_P0 Binary32.QUAD_P1 Binary32.QUAD_P2
     = {| finished := true;
          so_far := quadratic_lines STEPS Binary32.QUAD_P0 Binary32.QUAD_P1
                                    Binary32.QUAD_P2 |}
  /\ quadratic_polyline STEPS Binary32.QUAD_P0 Binary32.QUAD_P1 Binary32.QUAD_P2
     = Binary32.QUAD_P0
         :: map (quadratic_point STEPS Binary32.QUAD_P0 Binary32.QUAD_P1 Binary32.QUAD_P2)
                (steps_upto STEPS)
  /\ nth_error (quadratic_polyline STEPS Binary32.QUAD_P0 Binary32.QUAD_P1
                                   Binary32.QUAD_P2) (Z.to_nat 7)
     = Some (quadratic_point STEPS Binary32.QUAD_P0 Binary32.QUAD_P1
                             Binary32.QUAD_P2 7).
Proof.
  assert (Hs : 0 < STEPS < INT_MAX) by (split; reflexivity).
  destruct (quadratic_polyline_correct STEPS Binary32.QUAD_P0 Binary32.QUAD_P1
              Binary32.QUAD_P2 Hs) as [run [points [_ step]]].
  split; [exact Hs|].
  split; [apply run; unfold STEPS; lia|].
  split; [exact points|].
  apply step. unfold STEPS. lia.
Defined.

Lemma cubic_polyline_correct_witness :
  0 < STEPS < INT_MAX
  /\ run_cubic_lines 21 STEPS Binary32.CUBIC_P0 Binary32.CUBIC_P1 Binary32.CUBIC_P2
                     Binary32.CUBIC_P3
     = {| finished := true;
          so_far := cubic_lines STEPS Binary32.CUBIC_P0 Binary32.CUBIC_P1
                                Binary32.CUBIC_P2 Binary32.CUBIC_P3 |}
  /\ cubic_polyline STEPS Binary32.CUBIC_P0 Binary32.CUBIC_P1 Binary32.CUBIC_P2
                    Binary32.CUBIC_P3
     = Binary32.CUBIC_P0
         :: map (cubic_point STEPS Binary32.CUBIC_P0 Binary32.CUBIC_P1
                             Binary32.CUBIC_P2 Binary32.CUBIC_P3)
                (steps_upto STEPS)
  /\ nth_error (cubic_polyline STEPS Binary32.CUBIC_P0 Binary32.CUBIC_P1
                               Binary32.CUBIC_P2 Binary32.CUBIC_P3) (Z.to_nat 7)
     = Some (cubic_point STEPS Binary32.CUBIC_P0 Binary32.CUBIC_P1
                         Binary32.CUBIC_P2 Binary32.CUBIC_P3 7).
Proof.
  assert (Hs : 0 < STEPS < INT_MAX) by (split; reflexivity).
  destruct (cubic_polyline_correct STEPS Binary32.CUBIC_P0 Binary32.CUBIC_P1
              Binary32.CUBIC_P2 Binary32.CUBIC_P3 Hs) as [run [points [_ step]]].
  split; [exact Hs|].
  split; [apply run; unfold STEPS; lia|].
  split; [exact points|].
  apply step. unfold STEPS. lia.
Defined.

Lemma lerp_blend_witness :
  lerp (div (of_int 3) (of_int 2)) rational_QUAD_P0 rational_QUAD_P1
  = plus rational_QUAD_P0
         (scale (div (of_int 3) (of_int 2)) (minus rational_QUAD_P1 rational_QUAD_P0)).
Proof.
  destruct lerp_blend as [_ exact].
  exact (proj1 (exact Qc _ _ (div (of_int 3) (of_int 2))
                      rational_QUAD_P0 rational_QUAD_P1)).
Defined.

Lemma polyline_length_and_start_witness :
  0 < STEPS < INT_MAX
  /\ (Z.of_nat (length (quadratic_polyline STEPS Binary32.QUAD_P0 Binary32.QUAD_P1
                                           Binary32.QUAD_P2)) = STEPS + 1
      /\ hd_error (quadratic_polyline STEPS Binary32.QUAD_P0 Binary32.QUAD_P1
                                      Binary32.QUAD_P2) = Some Binary32.QUAD_P0)
  /\ (Z.of_nat (length (cubic_polyline STEPS Binary32.CUBIC_P0 Binary32.CUBIC_P1
                                       Binary32.CUBIC_P2 Binary32.CUBIC_P3))
      = STEPS + 1
      /\ hd_error (cubic_polyline STEPS Binary32.CUBIC_P0 Binary32.CUBIC_P1
                                  Binary32.CUBIC_P2 Binary32.CUBIC_P3)
         = Some Binary32.CUBIC_P0).
Proof.
  assert (Hs : 0 < STEPS < INT_MAX) by (split; reflexivity).
  destruct (polyline_length_and_start STEPS Binary32.QUAD_P0 Binary32.QUAD_P1
              Binary32.QUAD_P2 Binary32.CUBIC_P0 Binary32.CUBIC_P1 Binary32.CUBIC_P2
              Binary32.CUBIC_P3 Hs) as [_ [quadratic [cubic _]]].
  split; [exact Hs|]. split; [exact quadratic | exact cubic].
Defined.

Lemma polyline_ends_at_last_control_point_witness :
  (0 < STEPS < INT_MAX
   /\ last (quadratic_polyline STEPS rational_QUAD_P0 rational_QUAD_P1 rational_QUAD_P2)
           rational_QUAD_P0 = rational_QUAD_P2
   /\ last (cubic_polyline STEPS rational_CUBIC_P0 rational_CUBIC_P1
                           rational_CUBIC_P2 rational_CUBIC_P3)
           rational_CUBIC_P0 = rational_CUBIC_P3)
  /\ (forallb Binary32.is_point
        [Binary32.QUAD_P0; Binary32.QUAD_P1; Binary32.QUAD_P2; Binary32.CUBIC_P0;
         Binary32.CUBIC_P1; Binary32.CUBIC_P2; Binary32.CUBIC_P3] = true
      /\ Binary32.point_eqb
           (last (quadratic_polyline STEPS Binary32.QUAD_P0 Binary32.QUAD_P1
                                     Binary32.QUAD_P2) Binary32.QUAD_P0)
           Binary32.QUAD_P2 = true
      /\ Binary32.point_eqb
           (last (cubic_polyline STEPS Binary32.CUBIC_P0 Binary32.CUBIC_P1
                                 Binary32.CUBIC_P2 Binary32.CUBIC_P3) Binary32.CUBIC_P0)
           Binary32.CUBIC_P3 = true).
Proof.
  assert (Hs : 0 < STEPS < INT_MAX) by (split; reflexivity).
  destruct polyline_ends_at_last_control_point as [exact [floats _]].
  split.
  - split; [exact Hs|].
    destruct (exact Qc _ _ STEPS rational_QUAD_P0 rational_QUAD_P1 rational_QUAD_P2
                    rational_CUBIC_P0 rational_CUBIC_P1 rational_CUBIC_P2
                    rational_CUBIC_P3 Hs) as [quadratic [cubic _]].
    split; assumption.
  - split; [vm_compute; reflexivity|].
    apply (floats STEPS); [exact Hs | vm_compute; reflexivity].
Defined.


Lemma degenerate_curve_witness :
  (0 < STEPS < INT_MAX
   /\ Forall (fun q => q = rational_QUAD_P0)
             (quadratic_polyline STEPS rational_QUAD_P0 rational_QUAD_P0 rational_QUAD_P0)
   /\ Forall (fun q => q = rational_QUAD_P0)
             (cubic_polyline STEPS rational_QUAD_P0 rational_QUAD_P0
                             rational_QUAD_P0 rational_QUAD_P0))
  /\ (Binary32.is_point Binary32.QUAD_P0 = true
      /\ hd_error (map line_from (quadratic_lines STEPS Binary32.QUAD_P0
                                    Binary32.QUAD_P0 Binary32.QUAD_P0))
         = Some Binary32.QUAD_P0
      /\ Binary32.point_eqb
           (last (quadratic_polyline STEPS Binary32.QUAD_P0 Binary32.QUAD_P0
                                     Binary32.QUAD_P0) Binary32.QUAD_P0)
           Binary32.QUAD_P0 = true).
Proof.
  assert (Hs : 0 < STEPS < INT_MAX) by (split; reflexivity).
  destruct degenerate_curve as [exact floats].
  split.
  - split; [exact Hs|].
    exact (exact Qc _ _ STEPS rational_QUAD_P0 Hs).
  - split; [vm_compute; reflexivity|].
    destruct (floats STEPS Binary32.QUAD_P0 Hs) as [[from [_ to]] _];
      [vm_compute; reflexivity|].
    split; [exact from | exact to].
Defined.

Lemma quadratic_example_midpoint_witness :
  nth_error (quadratic_polyline (F := Qc) 2 (point_of_ints 0 0) (point_of_ints 1 0)
                                (point_of_ints 1 1)) 1
  = Some (rational_point 3 4 1 4).
Proof.
  destruct quadratic_example_midpoint as [exact _].
  exact (proj2 (exact Qc _ _)).
Defined.

Lemma de_casteljau_bernstein_witness :
  lerp (div (of_int 1) (of_int 10))
       (lerp (div (of_int 1) (of_int 10)) rational_QUAD_P0 rational_QUAD_P1)
       (lerp (div (of_int 1) (of_int 10)) rational_QUAD_P1 rational_QUAD_P2)
  = bernstein2 rational_QUAD_P0 rational_QUAD_P1 rational_QUAD_P2
               (div (of_int 1) (of_int 10)).
Proof.
  exact (proj1 (de_casteljau_bernstein (F := Qc) (div (of_int 1) (of_int 10))
                 rational_QUAD_P0 rational_QUAD_P1 rational_QUAD_P2
                 rational_CUBIC_P0 rational_CUBIC_P1 rational_CUBIC_P2
                 rational_CUBIC_P3)).
Defined.

Lemma evaluators_never_reject_witness :
  (STEPS < INT_MAX
   /\ call_draw_bezier_quadratic 21 STEPS [] Binary32.QUAD_P0 Binary32.QUAD_P1
                                 Binary32.QUAD_P2
      = Some (Succeeds (draw_bezier_quadratic STEPS [] Binary32.QUAD_P0
                                              Binary32.QUAD_P1 Binary32.QUAD_P2)))
  /\ (0 <= 0
      /\ call_draw_bezier_quadratic 1 0 [] Binary32.QUAD_P0 Binary32.QUAD_P1
                                    Binary32.QUAD_P2
         = Some (Succeeds ([] ++ [SDL_SetRenderDrawColor 0 255 0 SDL_ALPHA_OPAQUE]))).
Proof.
  split.
  - assert (Hs : STEPS < INT_MAX) by reflexivity.
    split; [exact Hs|].
    destruct (evaluators_never_reject STEPS [] Binary32.QUAD_P0 Binary32.QUAD_P1
                Binary32.QUAD_P2 Binary32.CUBIC_P0 Binary32.CUBIC_P1
                Binary32.CUBIC_P2 Binary32.CUBIC_P3) as [_ [returns _]].
    destruct (returns Hs) as [calls _].
    apply (calls 21%nat). unfold STEPS. lia.
  - assert (Hs : 0 <= 0) by discriminate.
    split; [exact Hs|].
    destruct (evaluators_never_reject 0 [] Binary32.QUAD_P0 Binary32.QUAD_P1
                Binary32.QUAD_P2 Binary32.CUBIC_P0 Binary32.CUBIC_P1
                Binary32.CUBIC_P2 Binary32.CUBIC_P3) as [_ [_ [none _]]].
    apply (none Hs).
Defined.

(** ** The calls of the drawing routines *)

Section RenderCalls.
Context {F : Type} `{Arith F}.

Lemma vertex_start (start : Point F) (body : Z -> Point F) (i : Z) :
  i <= 0 -> vertex start body i = start.
Proof.
  intros Hi. unfold vertex.
  destruct (Z.leb_spec i 0) as [_|Hgt]; [reflexivity|lia].
Qed.

Lemma vertex_body (start : Point F) (body : Z -> Point F) (i : Z) :
  1 <= i -> vertex start body i = body i.
Proof.
  intros Hi. unfold vertex.
  destruct (Z.leb_spec i 0) as [Hle|_]; [lia|reflexivity].
Qed.

(** The lines of a loop that starts at [start], from iteration [k] on. *)
Lemma iterations_vertices (start : Point F) (body : Z -> Point F) (n k : nat) :
  (1 <= k)%nat ->
  iterations body n (Z.of_nat k) (vertex start body (Z.of_nat k - 1))
  = map (fun i => {| line_from := vertex start body (i - 1);
                     line_to := vertex start body i |})
        (map Z.of_nat (seq k n)).
Proof.
  revert k. induction n as [|n IH]; intros k Hk; [reflexivity|].
  cbn [iterations seq map].
  rewrite (vertex_body start body (Z.of_nat k)) by lia.
  f_equal.
  replace (Z.of_nat k + 1) with (Z.of_nat (S k)) by lia.
  rewrite <- (vertex_body start body (Z.of_nat k)) by lia.
  replace (Z.of_nat k) with (Z.of_nat (S k) - 1) at 1 by lia.
  apply IH. lia.
Qed.

Lemma for_loop_vertices (steps : Z) (start : Point F) (body : Z -> Point F) :
  for_loop steps body 1 start
  = map (fun i => {| line_from := vertex start body (i - 1);
                     line_to := vertex start body i |})
        (steps_upto steps).
Proof.
  unfold for_loop, steps_upto.
  replace (steps + 1 - 1) with steps by lia.
  apply (iterations_vertices start body (Z.to_nat steps) 1). lia.
Qed.

(** X1.  With a step count below [INT_MAX] a call of [draw_bezier_quadratic]
    returns, and the calls it has made are: the colour, green, then for [i]
    from 1 to [steps] the line from point [i - 1] of the curve to point [i],
    both scaled to the window and converted to [int]. *)
Theorem draw_bezier_quadratic_calls
    (fuel : nat) (steps : Z) (renderer : Renderer) (p0 p1 p2 : Point F) :
  steps < INT_MAX -> (Z.to_nat steps < fuel)%nat ->
  run_draw_bezier_quadratic fuel steps renderer p0 p1 p2
  = {| finished := true;
       so_far :=
         renderer
         ++ SDL_SetRenderDrawColor 0 255 0 255
         :: map (fun i =>
                   let a := vertex p0 (quadratic_current steps p0 p1 p2) (i - 1) in
                   let b := vertex p0 (quadratic_current steps p0 p1 p2) i in
                   SDL_RenderDrawLine
                     (to_int (of_int 400 * x a)%arith)
                     (to_int (of_int 400 * y a)%arith)
                     (to_int (of_int 400 * x b)%arith)
                     (to_int (of_int 400 * y b)%arith))
                (steps_upto steps) |}.
Proof.
  intros Hs Hfuel.
  rewrite run_draw_bezier_quadratic_returns by assumption.
  unfold draw_bezier_quadratic, quadratic_lines.
  rewrite for_loop_vertices, map_map. reflexivity.
Qed.

(** X2.  With a step count below [INT_MAX] a call of [draw_bezier_cubic]
    returns, and the calls it has made are: the colour, red, then for [i]
    from 1 to [steps] the line from point [i - 1] of the curve to point [i],
    both scaled to the window and converted to [int]. *)
Theorem draw_bezier_cubic_calls
    (fuel : nat) (steps : Z) (renderer : Renderer) (p0 p1 p2 p3 : Point F) :
  steps < INT_MAX -> (Z.to_nat steps < fuel)%nat ->
  run_draw_bezier_cubic fuel steps renderer p0 p1 p2 p3
  = {| finished := true;
       so_far :=
         renderer
         ++ SDL_SetRenderDrawColor 255 0 0 255
         :: map (fun i =>
                   let a := vertex p0 (cubic_current steps p0 p1 p2 p3) (i - 1) in
                   let b := vertex p0 (cubic_current steps p0 p1 p2 p3) i in
                   SDL_RenderDrawLine
                     (to_int (of_int 400 * x a)%arith)
                     (to_int (of_int 400 * y a)%arith)
                     (to_int (of_int 400 * x b)%arith)
                     (to_int (of_int 400 * y b)%arith))
                (steps_upto steps) |}.
Proof.
  intros Hs Hfuel.
  rewrite run_draw_bezier_cubic_returns by assumption.
  unfold draw_bezier_cubic, cubic_lines.
  rewrite for_loop_vertices, map_map. reflexivity.
Qed.

(** Consecutive lines of a loop share a point. *)
Lemma iterations_joined (body : Z -> Point F) (n : nat) (i : Z) (curve_prev : Point F)
    (k : nat) (l1 l2 : Line F) :
  nth_error (iterations body n i curve_prev) k = Some l1 ->
  nth_error (iterations body n i curve_prev) (S k) = Some l2 ->
  line_from l2 = line_to l1.
Proof.
  revert n i curve_prev. induction k as [|k IH]; intros n i curve_prev H1 H2.
  - destruct n as [|[|n]]; cbn in H1, H2; try discriminate.
    injection H1 as <-. injection H2 as <-. reflexivity.
  - destruct n as [|n]; [discriminate|].
    cbn [iterations nth_error] in H1, H2. eapply IH; eassumption.
Qed.

Lemma iterations_first (body : Z -> Point F) (n : nat) (i : Z) (curve_prev : Point F)
    (l : Line F) :
  nth_error (iterations body n i curve_prev) 0 = Some l -> line_from l = curve_prev.
Proof.
  destruct n as [|n]; cbn; [discriminate|]. intros E. injection E as <-. reflexivity.
Qed.

(** X3.  The lines either routine has drawn form one connected path from [p0]:
    among the calls it appends, after the colour, the first line starts at
    [p0] scaled to the window and every further line starts at the window
    coordinates where the line before it ended. *)
Theorem drawn_path_connected
    (steps : Z) (renderer : Renderer) (q0 q1 q2 p0 p1 p2 p3 : Point F)
    (k : nat) (c1 c2 : RenderCall) :
  (nth_error (draw_bezier_quadratic steps renderer q0 q1 q2)
             (length renderer + 1) = Some c1 ->
   line_start c1 = Some (to_int (of_int 400 * x q0)%arith,
                         to_int (of_int 400 * y q0)%arith))
  /\ (nth_error (draw_bezier_quadratic steps renderer q0 q1 q2)
                 (length renderer + 1 + k) = Some c1 ->
      nth_error (draw_bezier_quadratic steps renderer q0 q1 q2)
                (length renderer + 1 + S k) = Some c2 ->
      line_start c2 = line_end c1 /\ line_end c1 <> None)
  /\ (nth_error (draw_bezier_cubic steps renderer p0 p1 p2 p3)
                 (length renderer + 1) = Some c1 ->
      line_start c1 = Some (to_int (of_int 400 * x p0)%arith,
                            to_int (of_int 400 * y p0)%arith))
  /\ (nth_error (draw_bezier_cubic steps renderer p0 p1 p2 p3)
                 (length renderer + 1 + k) = Some c1 ->
      nth_error (draw_bezier_cubic steps renderer p0 p1 p2 p3)
                (length renderer + 1 + S k) = Some c2 ->
      line_start c2 = line_end c1 /\ line_end c1 <> None).
Proof.
  assert (first : forall (lines : list (Line F)) (colour : RenderCall)
                         (start : Point F),
             (forall l, nth_error lines 0 = Some l -> line_from l = start) ->
             nth_error (renderer ++ colour :: map render_line lines)
                       (length renderer + 1) = Some c1 ->
             line_start c1 = Some (to_int (of_int 400 * x start)%arith,
                                   to_int (of_int 400 * y start)%arith)).
  { intros lines colour start Hfirst E.
    rewrite nth_error_app2 in E by lia.
    replace (length renderer + 1 - length renderer)%nat with 1%nat in E by lia.
    change (nth_error (map render_line lines) 0 = Some c1) in E.
    rewrite nth_error_map in E.
    destruct (nth_error lines 0) as [l|] eqn:El; [|discriminate].
    injection E as <-. rewrite <- (Hfirst l eq_refl). reflexivity. }
  assert (next : forall (lines : list (Line F)) (colour : RenderCall),
             (forall l1 l2, nth_error lines k = Some l1 ->
                            nth_error lines (S k) = Some l2 ->
                            line_from l2 = line_to l1) ->
             nth_error (renderer ++ colour :: map render_line lines)
                       (length renderer + 1 + k) = Some c1 ->
             nth_error (renderer ++ colour :: map render_line lines)
                       (length renderer + 1 + S k) = Some c2 ->
             line_start c2 = line_end c1 /\ line_end c1 <> None).
  { intros lines colour Hjoin E1 E2.
    rewrite nth_error_app2 in E1, E2 by lia.
    replace (length renderer + 1 + k - length renderer)%nat with (S k) in E1 by lia.
    replace (length renderer + 1 + S k - length renderer)%nat with (S (S k)) in E2 by lia.
    change (nth_error (map render_line lines) k = Some c1) in E1.
    change (nth_error (map render_line lines) (S k) = Some c2) in E2.
    rewrite nth_error_map in E1, E2.
    destruct (nth_error lines k) as [l1|] eqn:El1; [|discriminate].
    destruct (nth_error lines (S k)) as [l2|] eqn:El2; [|discriminate].
    injection E1 as <-. injection E2 as <-.
    cbn [render_line line_start line_end].
    rewrite (Hjoin l1 l2 eq_refl eq_refl). split; [reflexivity|discriminate]. }
  split; [|split; [|split]].
  - apply first. intros l. apply iterations_first.
  - apply next. intros l1 l2. apply iterations_joined.
  - apply first. intros l. apply iterations_first.
  - apply next. intros l1 l2. apply iterations_joined.
Qed.

(** What is appended to a renderer by a colour call and the calls of some
    lines. *)
Lemma appended_calls (renderer : Renderer) (colour : RenderCall)
    (lines : list (Line F)) :
  colour_or_line colour = true -> is_line colour = false ->
  firstn (length renderer) (renderer ++ colour :: map render_line lines) = renderer
  /\ forallb colour_or_line
        (skipn (length renderer) (renderer ++ colour :: map render_line lines))
      = true
  /\ length (filter is_line
        (skipn (length renderer) (renderer ++ colour :: map render_line lines)))
      = length lines
  /\ length (renderer ++ colour :: map render_line lines)
      = (length renderer + 1 + length lines)%nat.
Proof.
  intros Hc Hl.
  assert (lines_only :
            forallb colour_or_line (map render_line lines) = true
            /\ filter is_line (map render_line lines) = map render_line lines).
  { induction lines as [|l rest [IH1 IH2]]; [split; reflexivity|].
    cbn [map forallb filter render_line colour_or_line is_line andb].
    split; [exact IH1 | now rewrite IH2]. }
  destruct lines_only as [L1 L2].
  rewrite firstn_app, Nat.sub_diag, firstn_all, skipn_app, Nat.sub_diag, skipn_all.
  cbn [firstn skipn app forallb filter]. rewrite Hc, Hl, L1, L2, app_nil_r.
  rewrite length_app. cbn [length]. rewrite !length_map.
  repeat split; lia.
Qed.

(** X4.  While it runs and when it has returned, either routine has only added
    to what the renderer had received: the calls made before stay as they
    are, in front, and what follows sets a colour or draws a line; the
    renderer is never cleared and nothing is presented.  With a step count
    below [INT_MAX] the routine returns with one call setting the colour
    and one line per iteration added, as many as the step count when it is
    positive and none otherwise.  With the step count [INT_MAX] it does not
    return: after any number of loop tests it has drawn as many lines and
    goes on. *)
Theorem drawing_only_appends
    (fuel : nat) (steps : Z) (renderer : Renderer)
    (q0 q1 q2 p0 p1 p2 p3 : Point F) :
  let quadratic := run_draw_bezier_quadratic fuel steps renderer q0 q1 q2 in
  let cubic := run_draw_bezier_cubic fuel steps renderer p0 p1 p2 p3 in
  let added (run : Progress Renderer) := skipn (length renderer) (so_far run) in
  (firstn (length renderer) (so_far quadratic) = renderer
   /\ forallb colour_or_line (added quadratic) = true
   /\ firstn (length renderer) (so_far cubic) = renderer
   /\ forallb colour_or_line (added cubic) = true)
  /\ (steps < INT_MAX -> (Z.to_nat steps < fuel)%nat ->
      (finished quadratic = true
       /\ Z.of_nat (length (filter is_line (added quadratic))) = Z.max 0 steps
       /\ Z.of_nat (length (so_far quadratic))
          = Z.of_nat (length renderer) + 1 + Z.max 0 steps)
      /\ (finished cubic = true
          /\ Z.of_nat (length (filter is_line (added cubic))) = Z.max 0 steps
          /\ Z.of_nat (length (so_far cubic))
             = Z.of_nat (length renderer) + 1 + Z.max 0 steps))
  /\ (steps = INT_MAX ->
      (finished quadratic = false
       /\ length (filter is_line (added quadratic)) = fuel)
      /\ (finished cubic = false
          /\ length (filter is_line (added cubic)) = fuel)).
Proof.
  cbv zeta. unfold run_draw_bezier_quadratic, run_draw_bezier_cubic.
  cbn [finished so_far].
  pose proof (appended_calls renderer (SDL_SetRenderDrawColor 0 255 0 SDL_ALPHA_OPAQUE)
                (so_far (run_quadratic_lines fuel steps q0 q1 q2)) eq_refl eq_refl)
    as [Q1 [Q2 [Q3 Q4]]].
  pose proof (appended_calls renderer (SDL_SetRenderDrawColor 255 0 0 SDL_ALPHA_OPAQUE)
                (so_far (run_cubic_lines fuel steps p0 p1 p2 p3)) eq_refl eq_refl)
    as [C1 [C2 [C3 C4]]].
  split; [repeat split; assumption|]. split.
  - intros Hs Hfuel. rewrite Q3, Q4, C3, C4.
    rewrite run_quadratic_lines_returns, run_cubic_lines_returns by assumption.
    cbn [finished so_far].
    rewrite quadratic_lines_length, cubic_lines_length.
    repeat split; lia.
  - intros ->. rewrite Q3, C3.
    split; [apply run_quadratic_lines_INT_MAX | apply run_cubic_lines_INT_MAX].
Qed.

(** X5.  Every point of the cubic curve is the interpolation between the points
    of two quadratic curves, through the first three and through the last
    three control points, computed with the same step count; this holds bit
    for bit in every arithmetic. *)
Theorem cubic_from_quadratics (steps : Z) (p0 p1 p2 p3 : Point F) (i : Z) :
  1 <= i <= steps ->
  exists q q' : Point F,
    nth_error (quadratic_polyline steps p0 p1 p2) (Z.to_nat i) = Some q
    /\ nth_error (quadratic_polyline steps p1 p2 p3) (Z.to_nat i) = Some q'
    /\ nth_error (cubic_polyline steps p0 p1 p2 p3) (Z.to_nat i)
       = Some (lerp (of_int i / of_int steps)%arith q q').
Proof.
  intros Hi.
  exists (quadratic_point steps p0 p1 p2 i), (quadratic_point steps p1 p2 p3 i).
  rewrite !quadratic_polyline_map, cubic_polyline_map by lia.
  rewrite !polyline_nth_step by exact Hi.
  repeat split.
Qed.

(** X6.  Exchanging [x] and [y] in all control points exchanges them in every
    point of the curve: the two coordinates are computed alike and apart. *)
Theorem transposed_curves (steps : Z) (q0 q1 q2 p0 p1 p2 p3 : Point F) :
  quadratic_polyline steps (transpose q0) (transpose q1) (transpose q2)
  = map transpose (quadratic_polyline steps q0 q1 q2)
  /\ cubic_polyline steps (transpose p0) (transpose p1) (transpose p2) (transpose p3)
     = map transpose (cubic_polyline steps p0 p1 p2 p3).
Proof.
  destruct (Z.ltb_spec 0 steps) as [Hs|Hs].
  - rewrite !quadratic_polyline_map, !cubic_polyline_map by exact Hs.
    cbn [map]. rewrite !map_map. split; reflexivity.
  - unfold quadratic_polyline, cubic_polyline, quadratic_lines, cubic_lines.
    rewrite !polyline_no_iteration by exact Hs. split; reflexivity.
Qed.
End RenderCalls.

(** ** The event loop and [main] *)

Section ShellFacts.
Variable SDLK_ESCAPE : Z.

(** Once set, [quit] stays set. *)
Lemma handle_event_quit (event : SDL_Event) :
  handle_event SDLK_ESCAPE true event = true.
Proof. destruct event as [sym| |]; cbn; [destruct (sym =? SDLK_ESCAPE)| |]; reflexivity. Qed.

Lemma handle_event_false (event : SDL_Event) :
  handle_event SDLK_ESCAPE false event = quits SDLK_ESCAPE event.
Proof. reflexivity. Qed.

(** Exactly a quit request and a press of the escape key set [quit]. *)
Lemma quits_iff (event : SDL_Event) :
  quits SDLK_ESCAPE event = true
  <-> event = SDL_QUIT \/ event = SDL_KEYDOWN SDLK_ESCAPE.
Proof.
  destruct event as [sym| |]; unfold quits, handle_event.
  - destruct (Z.eqb_spec sym SDLK_ESCAPE) as [->|Hne].
    + split; [now right | reflexivity].
    + split; [discriminate|]. intros [E|E]; [discriminate|].
      injection E as E. contradiction.
  - split; [now left | reflexivity].
  - split; [discriminate|]. intros [E|E]; discriminate.
Qed.

(** With [quit] set the loop is left at the first empty poll; the events
    pending before it are still taken from the queue. *)
Lemma event_loop_quit (results : list (option SDL_Event)) :
  left_loop (event_loop SDLK_ESCAPE true results) = true <-> In None results.
Proof.
  induction results as [|[event|] rest IH]; cbn [event_loop left_loop add_calls In].
  - split; [discriminate|contradiction].
  - rewrite handle_event_quit, IH. split; [auto|]. intros [E|E]; [discriminate|exact E].
  - split; auto.
Qed.

Lemma event_loop_left_iff (results : list (option SDL_Event)) :
  left_loop (event_loop SDLK_ESCAPE false results) = true
  <-> exists (before : list (option SDL_Event)) (event : SDL_Event)
             (after : list (option SDL_Event)),
        results = before ++ Some event :: after
        /\ quits SDLK_ESCAPE event = true
        /\ In None after.
Proof.
  induction results as [|[event|] rest IH]; cbn [event_loop left_loop add_calls].
  - split; [discriminate|]. intros [before [event [after [E _]]]].
    destruct before; discriminate.
  - rewrite handle_event_false.
    destruct (quits SDLK_ESCAPE event) eqn:Q.
    + rewrite event_loop_quit. split.
      * intros Hin. exists [], event, rest. auto.
      * intros [before [e [after [E [Qe Hin]]]]].
        destruct before as [|b before]; cbn in E; injection E as E1 E2; subst.
        -- exact Hin.
        -- apply in_or_app. right. right. exact Hin.
    + rewrite IH. split.
      * intros [before [e [after [E [Qe Hin]]]]].
        exists (Some event :: before), e, after. subst. auto.
      * intros [before [e [after [E [Qe Hin]]]]].
        destruct before as [|b before]; cbn in E; injection E as E1 E2; subst.
        -- congruence.
        -- exists before, e, after. auto.
  - rewrite IH. split.
    + intros [before [e [after [E [Qe Hin]]]]].
      exists (None :: before), e, after. subst. auto.
    + intros [before [e [after [E [Qe Hin]]]]].
      destruct before as [|b before]; cbn in E; [discriminate|].
      injection E as E1 E2; subst. exists before, e, after. auto.
Qed.

(** The calls of the loop follow the polls it has consumed, and a loop that
    has not been left has consumed them all. *)
Lemma event_loop_consumed (quit : bool) (results : list (option SDL_Event)) :
  exists consumed : list (option SDL_Event),
    results = consumed ++ unread (event_loop SDLK_ESCAPE quit results)
    /\ loop_calls (event_loop SDLK_ESCAPE quit results) = poll_calls consumed
    /\ (left_loop (event_loop SDLK_ESCAPE quit results) = false ->
        unread (event_loop SDLK_ESCAPE quit results) = [])
    /\ (left_loop (event_loop SDLK_ESCAPE quit results) = true ->
        exists earlier, consumed = earlier ++ [None]).
Proof.
  revert quit.
  induction results as [|[event|] rest IH]; intros quit; cbn [event_loop].
  - exists []. repeat split; try reflexivity. discriminate.
  - destruct (IH (handle_event SDLK_ESCAPE quit event)) as [consumed [E [C [U L]]]].
    exists (Some event :: consumed). cbn [add_calls unread loop_calls left_loop].
    split; [cbn; now rewrite <- E|]. split; [cbn; now rewrite C|].
    split; [exact U|]. intros Hl. destruct (L Hl) as [earlier ->].
    exists (Some event :: earlier). reflexivity.
  - destruct quit.
    + exists [None]. cbn. repeat split; try discriminate. intros _. now exists [].
    + destruct (IH false) as [consumed [E [C [U L]]]].
      exists (None :: consumed). cbn [add_calls unread loop_calls left_loop].
      split; [cbn; now rewrite <- E|]. split; [cbn; now rewrite C|].
      split; [exact U|]. intros Hl. destruct (L Hl) as [earlier ->].
      exists (None :: earlier). reflexivity.
Qed.

Lemma event_loop_quit_stops (results : list (option SDL_Event)) :
  left_loop (event_loop SDLK_ESCAPE true results) = true ->
  exists pending rest : list (option SDL_Event),
    results = pending ++ None :: rest
    /\ ~ In None pending
    /\ unread (event_loop SDLK_ESCAPE true results) = rest
    /\ loop_calls (event_loop SDLK_ESCAPE true results)
       = poll_calls (pending ++ [None]).
Proof.
  induction results as [|[event|] rest IH]; cbn [event_loop left_loop add_calls].
  - discriminate.
  - rewrite handle_event_quit. intros Hl.
    destruct (IH Hl) as [pending [rest' [E [N [U C]]]]].
    exists (Some event :: pending), rest'.
    cbn [unread loop_calls add_calls]. rewrite U, C, E.
    repeat split. intros [D|D]; [discriminate|contradiction].
  - intros _. exists [], rest. repeat split. intros [].
Qed.

(** X7.  The event loop is left exactly when an event that quits has arrived and
    the queue has been found empty afterwards.  It stops at the first empty
    poll after the first such event: the events pending behind that event
    are still taken from the queue, what arrives later is not polled, and a
    pause of 5 ms follows every empty poll. *)
Theorem event_loop_stops (results : list (option SDL_Event)) :
  (left_loop (event_loop SDLK_ESCAPE false results) = true
   <-> exists (before : list (option SDL_Event)) (event : SDL_Event)
              (after : list (option SDL_Event)),
         results = before ++ Some event :: after
         /\ quits SDLK_ESCAPE event = true
         /\ In None after)
  /\ (left_loop (event_loop SDLK_ESCAPE false results) = true ->
      exists (before : list (option SDL_Event)) (event : SDL_Event)
             (pending rest : list (option SDL_Event)),
        results = before ++ Some event :: pending ++ None :: rest
        /\ (forall earlier : SDL_Event,
              In (Some earlier) before -> quits SDLK_ESCAPE earlier = false)
        /\ quits SDLK_ESCAPE event = true
        /\ ~ In None pending
        /\ unread (event_loop SDLK_ESCAPE false results) = rest
        /\ loop_calls (event_loop SDLK_ESCAPE false results)
           = poll_calls (before ++ Some event :: pending ++ [None])).
Proof.
  split; [apply event_loop_left_iff|].
  induction results as [|[event|] rest IH]; cbn [event_loop left_loop add_calls].
  - discriminate.
  - rewrite handle_event_false. destruct (quits SDLK_ESCAPE event) eqn:Q.
    + intros Hl.
      destruct (event_loop_quit_stops rest Hl) as [pending [rest' [E [N [U C]]]]].
      exists [], event, pending, rest'.
      cbn [unread loop_calls add_calls]. rewrite U, C, E.
      repeat split; try assumption. intros earlier [].
    + intros Hl.
      destruct (IH Hl) as [before [e [pending [rest' [E [B [Qe [N [U C]]]]]]]]].
      exists (Some event :: before), e, pending, rest'.
      cbn [unread loop_calls add_calls]. rewrite U, C, E.
      repeat split; try assumption.
      intros earlier [D|D]; [injection D as <-; exact Q | now apply B].
  - intros Hl.
    destruct (IH Hl) as [before [e [pending [rest' [E [B [Qe [N [U C]]]]]]]]].
    exists (None :: before), e, pending, rest'.
    cbn [unread loop_calls add_calls]. rewrite U, C, E.
    repeat split; try assumption.
    intros earlier [D|D]; [discriminate | now apply B].
Qed.

(** X8.  Without an event that quits the loop is never left, whatever else
    arrives: other keys and other events are taken from the queue and
    ignored, and the program pauses 5 ms after every empty poll. *)
Theorem event_loop_waits (results : list (option SDL_Event)) :
  (forall event : SDL_Event,
     In (Some event) results ->
     event <> SDL_QUIT /\ event <> SDL_KEYDOWN SDLK_ESCAPE) ->
  left_loop (event_loop SDLK_ESCAPE false results) = false
  /\ unread (event_loop SDLK_ESCAPE false results) = []
  /\ loop_calls (event_loop SDLK_ESCAPE false results) = poll_calls results.
Proof.
  intros Hno.
  assert (Hleft : left_loop (event_loop SDLK_ESCAPE false results) = false).
  { destruct (left_loop (event_loop SDLK_ESCAPE false results)) eqn:Hl; [|reflexivity].
    apply event_loop_left_iff in Hl.
    destruct Hl as [before [event [after [E [Q _]]]]].
    apply quits_iff in Q.
    destruct (Hno event) as [H1 H2]; [subst; apply in_or_app; right; now left|].
    destruct Q; contradiction. }
  destruct (event_loop_consumed false results) as [consumed [E [C [U _]]]].
  specialize (U Hleft). rewrite U, app_nil_r in E. subst consumed.
  auto.
Qed.

(** *** [main] *)

Lemma main_status_cases (env : Environment) :
  (init_status env <> 0 -> exit_status (main SDLK_ESCAPE env) = Some 1)
  /\ (init_status env = 0 -> create_status env <> 0 ->
      exit_status (main SDLK_ESCAPE env) = Some 2)
  /\ (init_status env = 0 -> create_status env = 0 ->
      exit_status (main SDLK_ESCAPE env)
      = if left_loop (event_loop SDLK_ESCAPE false (polls env))
        then Some 0 else None).
Proof.
  unfold main.
  destruct (Z.eqb_spec (init_status env) 0) as [I|I]; cbn [negb];
    [destruct (Z.eqb_spec (create_status env) 0) as [C|C]; cbn [negb]|].
  - destruct (left_loop (event_loop SDLK_ESCAPE false (polls env)));
      repeat split; intros; try contradiction; reflexivity.
  - repeat split; intros; try contradiction; reflexivity.
  - repeat split; intros; try contradiction; reflexivity.
Qed.

(** X9.  [main] returns 1 exactly when SDL does not initialise, 2 exactly when it
    does and the window cannot be created, and 0 exactly when both succeed
    and an event that quits has arrived with the queue found empty
    afterwards; it returns nothing else. *)
Theorem main_exit_status (env : Environment) :
  (exit_status (main SDLK_ESCAPE env) = Some 1 <-> init_status env <> 0)
  /\ (exit_status (main SDLK_ESCAPE env) = Some 2
      <-> init_status env = 0 /\ create_status env <> 0)
  /\ (exit_status (main SDLK_ESCAPE env) = Some 0
      <-> init_status env = 0 /\ create_status env = 0
          /\ exists (before : list (option SDL_Event)) (event : SDL_Event)
                    (after : list (option SDL_Event)),
               polls env = before ++ Some event :: after
               /\ (event = SDL_QUIT \/ event = SDL_KEYDOWN SDLK_ESCAPE)
               /\ In None after)
  /\ (forall status : Z,
        exit_status (main SDLK_ESCAPE env) = Some status ->
        status = 0 \/ status = 1 \/ status = 2).
Proof.
  destruct (main_status_cases env) as [S1 [S2 S0]].
  assert (L : left_loop (event_loop SDLK_ESCAPE false (polls env)) = true
              <-> exists (before : list (option SDL_Event)) (event : SDL_Event)
                         (after : list (option SDL_Event)),
                    polls env = before ++ Some event :: after
                    /\ (event = SDL_QUIT \/ event = SDL_KEYDOWN SDLK_ESCAPE)
                    /\ In None after).
  { rewrite event_loop_left_iff. split;
      intros [before [event [after [E [Q N]]]]]; exists before, event, after;
      (split; [exact E|]; split; [apply quits_iff; exact Q | exact N]). }
  destruct (Z.eq_dec (init_status env) 0) as [I|I].
  - destruct (Z.eq_dec (create_status env) 0) as [C|C].
    + rewrite (S0 I C).
      destruct (left_loop (event_loop SDLK_ESCAPE false (polls env))) eqn:Hl.
      * split; [split; [discriminate|contradiction]|].
        split; [split; [discriminate|intros [_ NC]; contradiction]|].
        split; [split; [intros _; split; [exact I|]; split; [exact C|];
                        now apply L | reflexivity]|].
        intros status E. injection E as <-. auto.
      * split; [split; [discriminate|contradiction]|].
        split; [split; [discriminate|intros [_ NC]; contradiction]|].
        split; [split; [discriminate|]|].
        -- intros [_ [_ Ex]]. apply L in Ex. discriminate Ex.
        -- intros status E. discriminate E.
    + rewrite (S2 I C).
      split; [split; [discriminate|contradiction]|].
      split; [split; [intros _; now split | reflexivity]|].
      split; [split; [discriminate|intros [_ [C' _]]; contradiction]|].
      intros status E. injection E as <-. auto.
  - rewrite (S1 I).
    split; [split; [intros _; exact I | reflexivity]|].
    split; [split; [discriminate|intros [I' _]; contradiction]|].
    split; [split; [discriminate|intros [I' _]; contradiction]|].
    intros status E. injection E as <-. auto.
Qed.

(** X10.  When [main] fails to start it writes one message, draws nothing, polls no
    event and leaves without calling [SDL_Quit]; when it starts it writes
    nothing. *)
Theorem main_failure (env : Environment) :
  (init_status env <> 0 ->
   cerr (main SDLK_ESCAPE env) = [Messages.init_failed]
   /\ calls (main SDLK_ESCAPE env) = [SDL_Init])
  /\ (init_status env = 0 -> create_status env <> 0 ->
      cerr (main SDLK_ESCAPE env) = [Messages.create_failed]
      /\ calls (main SDLK_ESCAPE env)
         = [SDL_Init; SDL_CreateWindowAndRenderer 400 400 0])
  /\ (init_status env = 0 -> create_status env = 0 ->
      cerr (main SDLK_ESCAPE env) = [])
  /\ (exit_status (main SDLK_ESCAPE env) = Some 1
      \/ exit_status (main SDLK_ESCAPE env) = Some 2 ->
      forall call : SDLCall,
        In call (calls (main SDLK_ESCAPE env)) ->
        call = SDL_Init \/ call = SDL_CreateWindowAndRenderer 400 400 0).
Proof.
  unfold main.
  destruct (Z.eqb_spec (init_status env) 0) as [I|I]; cbn [negb].
  - destruct (Z.eqb_spec (create_status env) 0) as [C|C]; cbn [negb].
    + destruct (left_loop (event_loop SDLK_ESCAPE false (polls env)));
        cbn [cerr calls exit_status];
        (repeat split; try congruence; try tauto;
         intros [E|E]; discriminate).
    + cbn [cerr calls exit_status]. repeat split; try congruence; try tauto.
      intros _ call [<-|[<-|[]]]; auto.
  - cbn [cerr calls exit_status]. repeat split; try congruence; try tauto.
    intros _ call [<-|[]]. auto.
Qed.

(** X11.  A run of [main] that has started.  Before the first event is
    polled, whatever the events, the frame is drawn and presented: the
    renderer is cleared to black; the colour is set to green and the 20 lines
    of the quadratic curve through [QUAD_P0], [QUAD_P1], [QUAD_P2] are
    drawn, the first from pixel (80, 80) to pixel (92, 106); the colour is
    set to red and the 20 lines of the cubic curve through [CUBIC_P0] ...
    [CUBIC_P3] are drawn, the last from pixel (302, 224) to pixel
    (320, 160); the frame is presented.  The polls follow, with their
    pauses; and when the loop is left the renderer and the window are
    destroyed, if they exist, and [SDL_Quit] is the last call. *)
Theorem main_started (env : Environment) :
  init_status env = 0 -> create_status env = 0 ->
  exists (consumed : list (option SDL_Event)) (green red : list RenderCall),
    polls env = consumed ++ unread (event_loop SDLK_ESCAPE false (polls env))
    /\ calls (main SDLK_ESCAPE env)
       = [SDL_Init; SDL_CreateWindowAndRenderer 400 400 0]
         ++ map SDL_Render
              ([SDL_SetRenderDrawColor 0 0 0 255; SDL_RenderClear]
               ++ [SDL_SetRenderDrawColor 0 255 0 255] ++ green
               ++ [SDL_SetRenderDrawColor 255 0 0 255] ++ red
               ++ [SDL_RenderPresent])
         ++ poll_calls consumed
         ++ match exit_status (main SDLK_ESCAPE env) with
            | Some _ =>
                (if renderer_created env then [SDL_DestroyRenderer] else [])
                ++ (if window_created env then [SDL_DestroyWindow] else [])
                ++ [SDL_Quit]
            | None => []
            end
    /\ green = map render_line
                 (quadratic_lines 20 Binary32.QUAD_P0 Binary32.QUAD_P1 Binary32.QUAD_P2)
    /\ red = map render_line
               (cubic_lines 20 Binary32.CUBIC_P0 Binary32.CUBIC_P1
                            Binary32.CUBIC_P2 Binary32.CUBIC_P3)
    /\ length green = 20%nat /\ length red = 20%nat
    /\ hd_error green
       = Some (SDL_RenderDrawLine (Some 80) (Some 80) (Some 92) (Some 106))
    /\ last red SDL_RenderClear
       = SDL_RenderDrawLine (Some 302) (Some 224) (Some 320) (Some 160).
Proof.
  intros I C.
  destruct (event_loop_consumed false (polls env)) as [consumed [E [Cs _]]].
  exists consumed.
  exists (map render_line
            (quadratic_lines 20 Binary32.QUAD_P0 Binary32.QUAD_P1 Binary32.QUAD_P2)),
         (map render_line
            (cubic_lines 20 Binary32.CUBIC_P0 Binary32.CUBIC_P1
                         Binary32.CUBIC_P2 Binary32.CUBIC_P3)).
  split; [exact E|].
  split; [|repeat split; vm_compute; reflexivity].
  assert (frame :
            Binary32.main_frame
            = [SDL_SetRenderDrawColor 0 0 0 255; SDL_RenderClear]
              ++ [SDL_SetRenderDrawColor 0 255 0 255]
              ++ map render_line
                   (quadratic_lines 20 Binary32.QUAD_P0 Binary32.QUAD_P1
                                    Binary32.QUAD_P2)
              ++ [SDL_SetRenderDrawColor 255 0 0 255]
              ++ map render_line
                   (cubic_lines 20 Binary32.CUBIC_P0 Binary32.CUBIC_P1
                                Binary32.CUBIC_P2 Binary32.CUBIC_P3)
              ++ [SDL_RenderPresent]).
  { unfold Binary32.main_frame, clear, draw_bezier_quadratic, draw_bezier_cubic.
    cbv zeta. cbn [app]. rewrite <- !app_assoc. reflexivity. }
  rewrite <- frame.
  unfold main. rewrite I, C. cbn [Z.eqb negb].
  destruct (left_loop (event_loop SDLK_ESCAPE false (polls env)));
    cbn [calls exit_status]; rewrite Cs, <- ?app_assoc; cbn [app].
  - reflexivity.
  - now rewrite app_nil_r.
Qed.
End ShellFacts.

(** ** The further theorems at concrete inputs *)

Lemma drawn_path_connected_witness :
  exists c1 c2 : RenderCall,
    nth_error (draw_bezier_quadratic STEPS [] Binary32.QUAD_P0 Binary32.QUAD_P1
                                     Binary32.QUAD_P2) 1 = Some c1
    /\ nth_error (draw_bezier_quadratic STEPS [] Binary32.QUAD_P0 Binary32.QUAD_P1
                                        Binary32.QUAD_P2) 2 = Some c2
    /\ line_start c2 = line_end c1.
Proof.
  eexists. eexists.
  split; [vm_compute; reflexivity|]. split; [vm_compute; reflexivity|].
  refine (proj1 (proj1 (proj2 (drawn_path_connected STEPS [] Binary32.QUAD_P0
            Binary32.QUAD_P1 Binary32.QUAD_P2 Binary32.CUBIC_P0 Binary32.CUBIC_P1
            Binary32.CUBIC_P2 Binary32.CUBIC_P3 0 _ _)) _ _));
    vm_compute; reflexivity.
Defined.

Lemma cubic_from_quadratics_witness :
  1 <= 7 <= STEPS
  /\ exists q q' : Point Binary32.float,
       nth_error (quadratic_polyline STEPS Binary32.CUBIC_P0 Binary32.CUBIC_P1
                                     Binary32.CUBIC_P2) (Z.to_nat 7) = Some q
       /\ nth_error (quadratic_polyline STEPS Binary32.CUBIC_P1 Binary32.CUBIC_P2
                                        Binary32.CUBIC_P3) (Z.to_nat 7) = Some q'
       /\ nth_error (cubic_polyline STEPS Binary32.CUBIC_P0 Binary32.CUBIC_P1
                                    Binary32.CUBIC_P2 Binary32.CUBIC_P3) (Z.to_nat 7)
          = Some (lerp (div (of_int 7) (of_int STEPS)) q q').
Proof.
  split; [split; discriminate|].
  apply (cubic_from_quadratics STEPS Binary32.CUBIC_P0 Binary32.CUBIC_P1
                               Binary32.CUBIC_P2 Binary32.CUBIC_P3 7).
  split; discriminate.
Defined.

Lemma event_loop_stops_witness :
  left_loop (event_loop 27 false sample_polls) = true
  /\ exists (before : list (option SDL_Event)) (event : SDL_Event)
            (pending rest : list (option SDL_Event)),
       sample_polls = before ++ Some event :: pending ++ None :: rest
       /\ (forall earlier : SDL_Event,
             In (Some earlier) before -> quits 27 earlier = false)
       /\ quits 27 event = true
       /\ ~ In None pending
       /\ unread (event_loop 27 false sample_polls) = rest
       /\ loop_calls (event_loop 27 false sample_polls)
          = poll_calls (before ++ Some event :: pending ++ [None]).
Proof.
  split; [reflexivity|].
  apply (proj2 (event_loop_stops 27 sample_polls)). reflexivity.
Defined.

Lemma event_loop_waits_witness :
  (forall event : SDL_Event,
     In (Some event) [Some (SDL_KEYDOWN 97); None; Some SDL_other_event; None] ->
     event <> SDL_QUIT /\ event <> SDL_KEYDOWN 27)
  /\ left_loop (event_loop 27 false
                  [Some (SDL_KEYDOWN 97); None; Some SDL_other_event; None]) = false.
Proof.
  assert (no_quit : forall event : SDL_Event,
             In (Some event) [Some (SDL_KEYDOWN 97); None; Some SDL_other_event; None] ->
             event <> SDL_QUIT /\ event <> SDL_KEYDOWN 27).
  { intros event [E|[E|[E|[E|[]]]]]; try discriminate E;
      injection E as <-; split; discriminate. }
  split; [exact no_quit|].
  exact (proj1 (event_loop_waits 27 _ no_quit)).
Defined.

Lemma main_exit_status_witness :
  (init_status sample_environment = 0 /\ create_status sample_environment = 0
   /\ exists (before : list (option SDL_Event)) (event : SDL_Event)
             (after : list (option SDL_Event)),
        polls sample_environment = before ++ Some event :: after
        /\ (event = SDL_QUIT \/ event = SDL_KEYDOWN 27)
        /\ In None after)
  /\ exit_status (main 27 sample_environment) = Some 0.
Proof.
  assert (quit_arrives :
            init_status sample_environment = 0 /\ create_status sample_environment = 0
            /\ exists (before : list (option SDL_Event)) (event : SDL_Event)
                      (after : list (option SDL_Event)),
                 polls sample_environment = before ++ Some event :: after
                 /\ (event = SDL_QUIT \/ event = SDL_KEYDOWN 27)
                 /\ In None after).
  { split; [reflexivity|]. split; [reflexivity|].
    exists [Some (SDL_KEYDOWN 97); None], (SDL_KEYDOWN 27),
           [Some SDL_other_event; None; Some SDL_QUIT].
    split; [reflexivity|]. split; [now right|]. cbn. tauto. }
  split; [exact quit_arrives|].
  exact (proj2 (proj1 (proj2 (proj2 (main_exit_status 27 sample_environment))))
               quit_arrives).
Defined.

Lemma main_failure_witness :
  init_status {| init_status := -1; create_status := 0; window_created := false;
                 renderer_created := false; polls := sample_polls |} <> 0
  /\ calls (main 27 {| init_status := -1; create_status := 0;
                       window_created := false; renderer_created := false;
                       polls := sample_polls |}) = [SDL_Init].
Proof.
  split; [discriminate|].
  apply (proj1 (main_failure 27 {| init_status := -1; create_status := 0;
                                   window_created := false;
                                   renderer_created := false;
                                   polls := sample_polls |})).
  discriminate.
Defined.

Lemma main_started_witness :
  init_status sample_environment = 0
  /\ create_status sample_environment = 0
  /\ exists (consumed : list (option SDL_Event)) (green red : list RenderCall),
       polls sample_environment
       = consumed ++ unread (event_loop 27 false (polls sample_environment))
       /\ calls (main 27 sample_environment)
          = [SDL_Init; SDL_CreateWindowAndRenderer 400 400 0]
            ++ map SDL_Render
                 ([SDL_SetRenderDrawColor 0 0 0 255; SDL_RenderClear]
                  ++ [SDL_SetRenderDrawColor 0 255 0 255] ++ green
                  ++ [SDL_SetRenderDrawColor 255 0 0 255] ++ red
                  ++ [SDL_RenderPresent])
            ++ poll_calls consumed
            ++ match exit_status (main 27 sample_environment) with
               | Some _ =>
                   (if renderer_created sample_environment
                    then [SDL_DestroyRenderer] else [])
                   ++ (if window_created sample_environment
                       then [SDL_DestroyWindow] else [])
                   ++ [SDL_Quit]
               | None => []
               end
       /\ green = map render_line
                    (quadratic_lines 20 Binary32.QUAD_P0 Binary32.QUAD_P1
                                     Binary32.QUAD_P2)
       /\ red = map render_line
                  (cubic_lines 20 Binary32.CUBIC_P0 Binary32.CUBIC_P1
                               Binary32.CUBIC_P2 Binary32.CUBIC_P3)
       /\ length green = 20%nat /\ length red = 20%nat
       /\ hd_error green
          = Some (SDL_RenderDrawLine (Some 80) (Some 80) (Some 92) (Some 106))
       /\ last red SDL_RenderClear
          = SDL_RenderDrawLine (Some 302) (Some 224) (Some 320) (Some 160).
Proof.
  split; [reflexivity|]. split; [reflexivity|].
  apply (main_started 27 sample_environment); reflexivity.
Defined.

Lemma draw_bezier_quadratic_calls_witness :
  STEPS < INT_MAX
  /\ (Z.to_nat STEPS < 21)%nat
  /\ run_draw_bezier_quadratic 21 STEPS [SDL_RenderClear] Binary32.QUAD_P0
                               Binary32.QUAD_P1 Binary32.QUAD_P2
     = {| finished := true;
          so_far :=
            [SDL_RenderClear]
            ++ SDL_SetRenderDrawColor 0 255 0 255
            :: map (fun i =>
                      let a := vertex Binary32.QUAD_P0
                                 (quadratic_current STEPS Binary32.QUAD_P0
                                    Binary32.QUAD_P1 Binary32.QUAD_P2) (i - 1) in
                      let b := vertex Binary32.QUAD_P0
                                 (quadratic_current STEPS Binary32.QUAD_P0
                                    Binary32.QUAD_P1 Binary32.QUAD_P2) i in
                      SDL_RenderDrawLine
                        (to_int (mul (of_int 400) (x a)))
                        (to_int (mul (of_int 400) (y a)))
                        (to_int (mul (of_int 400) (x b)))
                        (to_int (mul (of_int 400) (y b))))
                   (steps_upto STEPS) |}.
Proof.
  assert (Hs : STEPS < INT_MAX) by reflexivity.
  assert (Hfuel : (Z.to_nat STEPS < 21)%nat) by (unfold STEPS; lia).
  split; [exact Hs|]. split; [exact Hfuel|].
  exact (draw_bezier_quadratic_calls 21 STEPS [SDL_RenderClear] Binary32.QUAD_P0
           Binary32.QUAD_P1 Binary32.QUAD_P2 Hs Hfuel).
Defined.

Lemma draw_bezier_cubic_calls_witness :
  STEPS < INT_MAX
  /\ (Z.to_nat STEPS < 21)%nat
  /\ run_draw_bezier_cubic 21 STEPS [SDL_RenderClear] Binary32.CUBIC_P0
                           Binary32.CUBIC_P1 Binary32.CUBIC_P2 Binary32.CUBIC_P3
     = {| finished := true;
          so_far :=
            [SDL_RenderClear]
            ++ SDL_SetRenderDrawColor 255 0 0 255
            :: map (fun i =>
                      let a := vertex Binary32.CUBIC_P0
                                 (cubic_current STEPS Binary32.CUBIC_P0
                                    Binary32.CUBIC_P1 Binary32.CUBIC_P2
                                    Binary32.CUBIC_P3) (i - 1) in
                      let b := vertex Binary32.CUBIC_P0
                                 (cubic_current STEPS Binary32.CUBIC_P0
                                    Binary32.CUBIC_P1 Binary32.CUBIC_P2
                                    Binary32.CUBIC_P3) i in
                      SDL_RenderDrawLine
                        (to_int (mul (of_int 400) (x a)))
                        (to_int (mul (of_int 400) (y a)))
                        (to_int (mul (of_int 400) (x b)))
                        (to_int (mul (of_int 400) (y b))))
                   (steps_upto STEPS) |}.
Proof.
  assert (Hs : STEPS < INT_MAX) by reflexivity.
  assert (Hfuel : (Z.to_nat STEPS < 21)%nat) by (unfold STEPS; lia).
  split; [exact Hs|]. split; [exact Hfuel|].
  exact (draw_bezier_cubic_calls 21 STEPS [SDL_RenderClear] Binary32.CUBIC_P0
           Binary32.CUBIC_P1 Binary32.CUBIC_P2 Binary32.CUBIC_P3 Hs Hfuel).
Defined.

Lemma drawing_only_appends_witness :
  (STEPS < INT_MAX
   /\ (Z.to_nat STEPS < 21)%nat
   /\ finished (run_draw_bezier_quadratic 21 STEPS [SDL_RenderClear]
                  Binary32.QUAD_P0 Binary32.QUAD_P1 Binary32.QUAD_P2) = true
   /\ Z.of_nat (length (so_far (run_draw_bezier_quadratic 21 STEPS [SDL_RenderClear]
                                  Binary32.QUAD_P0 Binary32.QUAD_P1 Binary32.QUAD_P2)))
      = Z.of_nat (length [SDL_RenderClear]) + 1 + Z.max 0 STEPS)
  /\ (INT_MAX = INT_MAX
      /\ finished (run_draw_bezier_quadratic 3 INT_MAX [SDL_RenderClear]
                     Binary32.QUAD_P0 Binary32.QUAD_P1 Binary32.QUAD_P2) = false).
Proof.
  split.
  - assert (Hs : STEPS < INT_MAX) by reflexivity.
    assert (Hfuel : (Z.to_nat STEPS < 21)%nat) by (unfold STEPS; lia).
    split; [exact Hs|]. split; [exact Hfuel|].
    destruct (drawing_only_appends 21 STEPS [SDL_RenderClear]
                Binary32.QUAD_P0 Binary32.QUAD_P1 Binary32.QUAD_P2
                Binary32.CUBIC_P0 Binary32.CUBIC_P1 Binary32.CUBIC_P2
                Binary32.CUBIC_P3) as [_ [returns _]].
    destruct (returns Hs Hfuel) as [[done [_ size]] _].
    split; [exact done | exact size].
  - split; [reflexivity|].
    destruct (drawing_only_appends 3 INT_MAX [SDL_RenderClear]
                Binary32.QUAD_P0 Binary32.QUAD_P1 Binary32.QUAD_P2
                Binary32.CUBIC_P0 Binary32.CUBIC_P1 Binary32.CUBIC_P2
                Binary32.CUBIC_P3) as [_ [_ runs]].
    destruct (runs eq_refl) as [[running _] _].
    exact running.
Defined.
